(** * ChatPage: the conversation session controller of the HR-assistant chat client

    A shallow embedding of [ChatPage.tsx] (the variant with related-question
    suggestions) and the properties of its controller logic: [sendMessage],
    [handleSubmit], [handleRelatedClick], [handleClear], [handleLogout] and
    the part of the render function that produces the suggestion buttons and
    the form controls.

    The component is written against the browser platform: React state
    setters, [localStorage], [fetch], [Date].  Handlers are embedded as
    programs over an explicit effect signature; an event loop runs them
    against a world made of the React state, the storage and a log of the
    outward effects.  The two [await]s of [sendMessage] are the suspension
    points of that loop: between the turns of one send any other event may
    take its turn, another send included.

    The repository also holds an earlier variant of the page, without
    suggestions, whose submit handler has the body of [sendMessage] inline;
    it is not embedded here. *)

From Stdlib Require Import List String Ascii ZArith NArith Bool Lia PrimFloat.
From Stdlib Require Import DecimalString DecimalZ.
Import ListNotations.

Set Implicit Arguments.
Set Warnings "-register-all".

(* ===================================================================== *)
(** ** JavaScript values *)
(* ===================================================================== *)

Module JS.

(** A JavaScript string is a sequence of UTF-16 code units. *)
Definition jsstring := list N.

(** String literals of the source; they are all ASCII. *)
Definition lit (s : string) : jsstring :=
  map N_of_ascii (list_ascii_of_string s).

Fixpoint eqb (a b : jsstring) : bool :=
  match a, b with
  | [], [] => true
  | x :: a', y :: b' => N.eqb x y && eqb a' b'
  | _, _ => false
  end.

(** [WhiteSpace] and [LineTerminator] code points of ECMAScript, the ones
    [String.prototype.trim] strips. *)
Definition is_whitespace (c : N) : bool :=
  ((9 <=? c) && (c <=? 13) || (c =? 32) || (c =? 160) || (c =? 5760)
   || (8192 <=? c) && (c <=? 8202) || (c =? 8232) || (c =? 8233)
   || (c =? 8239) || (c =? 8287) || (c =? 12288) || (c =? 65279))%N.

Fixpoint trimStart (s : jsstring) : jsstring :=
  match s with
  | c :: s' => if is_whitespace c then trimStart s' else s
  | [] => []
  end.

(** [s.trim()] *)
Definition trim (s : jsstring) : jsstring :=
  rev (trimStart (rev (trimStart s))).

(** [n.toString()] for an integral number below 10^21 in magnitude (every
    value of [Date.now()] is one): the decimal digits, with a leading minus
    sign when negative. *)
Definition toString (z : Z) : jsstring :=
  lit (NilEmpty.string_of_int (Z.to_int z)).

(** The values a handler of this component can meet at run time: what
    [response.json()] produces, and [undefined] for a property that is not
    there.  An object is the list of its own enumerable properties in
    enumeration order, with pairwise distinct keys. *)
Inductive value : Type :=
| Undefined
| Null
| Bool (b : bool)
| Num (x : float)
| Str (s : jsstring)
| Arr (items : list value)
| Obj (props : list (jsstring * value)).

(** ToBoolean *)
Definition truthy (v : value) : bool :=
  match v with
  | Undefined | Null => false
  | Bool b => b
  | Num x => negb (PrimFloat.eqb x 0%float || negb (PrimFloat.eqb x x))
  | Str s => match s with [] => false | _ => true end
  | Arr _ | Obj _ => true
  end.

(** [a || b] *)
Definition logical_or (a b : value) : value := if truthy a then a else b.

(** What can be thrown, as far as [err instanceof Error ? err.message : ...]
    tells things apart. *)
Inductive thrown : Type :=
| Error (message : jsstring)
| NotAnError (v : value).

(** The properties the component reads off the response data. *)
Inductive field : Type := f_message | f_reply | f_related.

Definition field_name (f : field) : jsstring :=
  match f with
  | f_message => lit "message"
  | f_reply => lit "reply"
  | f_related => lit "related"
  end.

Fixpoint lookup (k : jsstring) (props : list (jsstring * value)) : value :=
  match props with
  | [] => Undefined
  | (k', v) :: rest => if eqb k k' then v else lookup k rest
  end.

(** The [TypeError] message of a property read on [null] or [undefined]
    (V8's wording). *)
Definition cannot_read (what : string) (f : field) : jsstring :=
  lit "Cannot read properties of " ++ lit what ++ lit " (reading '"
  ++ field_name f ++ lit "')".

(** [v.f] for [f] one of [message], [reply], [related]: throws on [null] and
    [undefined]; on an object the own property or [undefined]; no primitive
    wrapper or array has a property of these names. *)
Definition get (v : value) (f : field) : thrown + value :=
  match v with
  | Undefined => inl (Error (cannot_read "undefined" f))
  | Null => inl (Error (cannot_read "null" f))
  | Obj props => inr (lookup (field_name f) props)
  | Bool _ | Num _ | Str _ | Arr _ => inr Undefined
  end.

Fixpoint indexed (i : nat) (vs : list value) : list (jsstring * value) :=
  match vs with
  | [] => []
  | v :: vs' => (toString (Z.of_nat i), v) :: indexed (S i) vs'
  end.

(** [Object.entries(v)] for a value that is not [null] or [undefined]. *)
Definition entries (v : value) : list (jsstring * value) :=
  match v with
  | Obj props => props
  | Arr items => indexed 0 items
  | Str s => indexed 0 (map (fun c => Str [c]) s)
  | Undefined | Null | Bool _ | Num _ => []
  end.

End JS.

Import JS.

(* ===================================================================== *)
(** ** Platform: effects, promises and programs *)
(* ===================================================================== *)

(** [type Message] *)
Inductive Sender : Type := user | bot.
Inductive Status : Type := sent | delivered | errored.

Record Message : Type := {
  id : jsstring;
  text : value;          (* declared [string]; at run time whatever the reply carried *)
  sender : Sender;
  timestamp : jsstring;
  status : option Status
}.

(** The [useState] cells of the component. [related] is [Related | null]. *)
Record State : Type := {
  inputMessage : jsstring;
  messages : list Message;
  isLoading : bool;
  error : jsstring;
  related : value
}.

(** The second argument of [fetch].  The body is kept as the value handed
    to [JSON.stringify]. *)
Inductive payload : Type := JSON_stringify (v : value).

Record RequestInit : Type := {
  method : jsstring;
  headers : list (jsstring * jsstring);
  body : payload
}.

(** A [Response], as far as the component looks at it: the status, from
    which [ok] derives, and what [json()] settles to. *)
Record Response : Type := {
  status_code : Z;
  json : thrown + value
}.

(** [response.ok]: the status is in the range 200-299. *)
Definition ok (r : Response) : bool :=
  ((200 <=? status_code r) && (status_code r <=? 299))%Z.

(** Synchronous operations of the platform, indexed by their result.
    [localStorage] is taken to be accessible: its operations do not throw. *)
Inductive eff : Type -> Type :=
| localStorage_getItem (key : jsstring) : eff (option jsstring)
| localStorage_removeItem (key : jsstring) : eff unit
| navigate (path : jsstring) : eff unit
| Date_now : eff Z
| new_Date_toISOString : eff jsstring
| preventDefault : eff unit
| setInputMessage (s : jsstring) : eff unit
| setMessages (f : list Message -> list Message) : eff unit
| setIsLoading (b : bool) : eff unit
| setError (s : jsstring) : eff unit
| setRelated (v : value) : eff unit.

(** The promises the component awaits. *)
Inductive promise : Type -> Type :=
| fetch (url : jsstring) (init : RequestInit) : promise Response
| response_json (r : Response) : promise value.

(** Handler code: a tree of operations; [Await] is a suspension point, its
    continuation receives the rejection or the fulfilment. *)
Inductive prog (A : Type) : Type :=
| Ret (a : A)
| Throw (e : thrown)
| Do (X : Type) (e : eff X) (k : X -> prog A)
| Await (X : Type) (p : promise X) (k : thrown + X -> prog A).

Arguments Ret {A} a.
Arguments Throw {A} e.
Arguments Do {A X} e k.
Arguments Await {A X} p k.

Fixpoint bind {A B : Type} (p : prog A) (f : A -> prog B) : prog B :=
  match p with
  | Ret a => f a
  | Throw e => Throw e
  | Do e k => Do e (fun x => bind (k x) f)
  | Await q k => Await q (fun r => bind (k r) f)
  end.

Declare Scope prog_scope.
Delimit Scope prog_scope with prog.
Bind Scope prog_scope with prog.
Notation "x <- p ;; q" := (bind p (fun x => q))
  (at level 61, p at next level, right associativity) : prog_scope.
Notation "p ;; q" := (bind p (fun _ => q))
  (at level 61, right associativity) : prog_scope.
Local Open Scope prog_scope.

Definition perform {X : Type} (e : eff X) : prog X := Do e (fun x => Ret x).

(** [await p]: a rejected promise throws at the [await]. *)
Definition await {X : Type} (p : promise X) : prog X :=
  Await p (fun r => match r with inl e => Throw e | inr x => Ret x end).

(** A throwing expression evaluated inside a program. *)
Definition eval {X : Type} (r : thrown + X) : prog X :=
  match r with inl e => Throw e | inr x => Ret x end.

(** [try { p } catch (err) { h err }] *)
Fixpoint try_catch {A : Type} (p : prog A) (h : thrown -> prog A) : prog A :=
  match p with
  | Ret a => Ret a
  | Throw e => h e
  | Do e k => Do e (fun x => try_catch (k x) h)
  | Await q k => Await q (fun r => try_catch (k r) h)
  end.

(** [try { p } finally { f }]: [f] runs on both exits and a pending throw
    goes on after it. *)
Definition try_finally {A : Type} (p : prog A) (f : prog unit) : prog A :=
  a <- try_catch p (fun e => f ;; Throw e) ;; f ;; Ret a.

Definition try_catch_finally {A : Type}
    (p : prog A) (h : thrown -> prog A) (f : prog unit) : prog A :=
  try_finally (try_catch p h) f.

(* ===================================================================== *)
(** ** The component *)
(* ===================================================================== *)

Definition empty : jsstring := [].

Definition Failed_to_send_message : jsstring := lit "Failed to send message".

Definition placeholder : jsstring :=
  lit "Sorry, I could not process your request.".

Definition endpoint : jsstring := lit "http://localhost:3000/api/message".

(** The mount effect: [useEffect(() => { ... }, [navigate])]. *)
Definition mount_guard : prog unit :=
  token <- perform (localStorage_getItem (lit "token")) ;;
  match token with
  | None | Some [] => perform (navigate (lit "/login"))
  | Some _ => Ret tt
  end.

Definition handleLogout : prog unit :=
  perform (localStorage_removeItem (lit "token")) ;;
  perform (navigate (lit "/login")).

Definition handleClear : prog unit :=
  perform (setMessages (fun _ => [])) ;;
  perform (setError empty) ;;
  perform (setRelated Null).

(** [err instanceof Error ? err.message : "Failed to send message"] *)
Definition describe (err : thrown) : jsstring :=
  match err with
  | Error message => message
  | NotAnError _ => Failed_to_send_message
  end.

(** [data.message || data.reply || "Sorry, ..."]: [data.reply] is read only
    when [data.message] is falsy. *)
Definition reply_text (data : value) : prog value :=
  m <- eval (get data f_message) ;;
  if truthy m then Ret m
  else r <- eval (get data f_reply) ;;
       Ret (logical_or r (Str placeholder)).

Definition sendMessage (messageText : jsstring) : prog unit :=
  token <- perform (localStorage_getItem (lit "token")) ;;
  match token with
  | None | Some [] =>                                    (* if (!token) *)
      perform (navigate (lit "/login"))
  | Some token =>
      now <- perform Date_now ;;
      iso <- perform new_Date_toISOString ;;
      let userMessage :=
        {| id := toString now; text := Str messageText; sender := user;
           timestamp := iso; status := None |} in
      perform (setMessages (fun prev => prev ++ [userMessage])) ;;
      perform (setIsLoading true) ;;
      perform (setInputMessage empty) ;;
      perform (setError empty) ;;
      perform (setRelated Null) ;;
      try_catch_finally
        (response <- await (fetch endpoint
           {| method := lit "POST";
              headers := [ (lit "Content-Type", lit "application/json");
                           (lit "Authorization", lit "Bearer " ++ token) ];
              body := JSON_stringify
                        (Obj [ (lit "message", text userMessage) ]) |}) ;;
         if negb (ok response) then Throw (Error Failed_to_send_message)
         else
           data <- await (response_json response) ;;
           now <- perform Date_now ;;
           txt <- reply_text data ;;
           iso <- perform new_Date_toISOString ;;
           let botMessage :=
             {| id := toString (now + 1); text := txt; sender := bot;
                timestamp := iso; status := None |} in
           perform (setMessages (fun prev => prev ++ [botMessage])) ;;
           rel <- eval (get data f_related) ;;
           perform (setRelated (logical_or rel Null)))
        (fun err => perform (setError (describe err)))
        (perform (setIsLoading false))
  end.

(** [handleSubmit] closes over [inputMessage] and [isLoading] of the render
    it belongs to; the event loop below hands it the current state, the page
    being rendered anew after every turn. *)
Definition handleSubmit (s : State) : prog unit :=
  perform preventDefault ;;
  if negb (truthy (Str (trim (inputMessage s)))) || isLoading s then Ret tt
  else sendMessage (inputMessage s).

Definition handleRelatedClick (intent : jsstring) : prog unit :=
  sendMessage intent.

(** [onKeyDown] of the input:
    [if (e.key === 'Enter' && !e.shiftKey) handleSubmit(e)]. *)
Definition onKeyDown (s : State) (key : jsstring) (shiftKey : bool) : prog unit :=
  if JS.eqb key (lit "Enter") && negb shiftKey then handleSubmit s else Ret tt.

(** [onChange] of the input. *)
Definition onChange (v : jsstring) : prog unit := perform (setInputMessage v).

(** *** The rendered controls *)

Record Button : Type := {
  key : jsstring;
  label : value;
  disabled : bool;
  onClick : prog unit
}.

Record Bubble : Type := {
  bubble_key : jsstring;
  shown : Message;
  suggested : list Button
}.

Record View : Type := {
  bubbles : list Bubble;
  input_disabled : bool;
  submit_disabled : bool
}.

Definition is_bot (m : Message) : bool :=
  match sender m with bot => true | user => false end.

Fixpoint numbered {A : Type} (i : nat) (l : list A) : list (nat * A) :=
  match l with
  | [] => []
  | a :: l' => (i, a) :: numbered (S i) l'
  end.

(** [message.sender === "bot" &&
     messages.filter((m) => m.sender === "bot").slice(-1)[0] === message].
    Every message is an object of its own, so object identity is identity of
    position in [messages]. *)
Definition isLastBot (msgs : list Message) (idx : nat) (message : Message) : bool :=
  is_bot message &&
  match rev (filter (fun im => is_bot (snd im)) (numbered 0 msgs)) with
  | (j, _) :: _ => Nat.eqb j idx
  | [] => false
  end.

Definition suggestion (s : State) (entry : jsstring * value) : Button :=
  let (intent, question) := entry in
  {| key := intent; label := question; disabled := isLoading s;
     onClick := handleRelatedClick intent |}.

(** The element tree the component returns, as far as the controls go.
    Whether React can put it on the page is [displayable] below. *)
Definition render (s : State) : View :=
  {| bubbles :=
       map (fun im : nat * Message =>
              let (idx, message) := im in
              {| bubble_key := id message;
                 shown := message;
                 suggested :=
                   if isLastBot (messages s) idx message && truthy (related s)
                   then map (suggestion s) (entries (related s))
                   else [] |})
           (numbered 0 (messages s));
     input_disabled := isLoading s;
     submit_disabled := isLoading s || negb (truthy (Str (trim (inputMessage s)))) |}.

(** The suggestion buttons on the page, in document order. *)
Definition suggestions (v : View) : list Button :=
  List.concat (map suggested (bubbles v)).

(** What React accepts as a child: text, numbers, and what it renders as
    nothing ([true], [false], [null], [undefined]), and arrays of these.  On
    a plain object it throws ("Objects are not valid as a React child"). *)
Fixpoint renderable (v : value) : bool :=
  match v with
  | Obj _ => false
  | Arr items =>
      (fix all (l : list value) : bool :=
         match l with
         | [] => true
         | x :: l' => renderable x && all l'
         end) items
  | Undefined | Null | Bool _ | Num _ | Str _ => true
  end.

(** The values the tree holds as children are [{message.text}] of every
    bubble and [{question}] of every suggestion button. *)
Definition displayable (s : State) : bool :=
  forallb (fun m => renderable (text m)) (messages s) &&
  forallb (fun b => renderable (label b)) (suggestions (render s)).

(** What is on the page: the tree, or nothing when React throws while
    rendering it and takes the page down. *)
Definition page (s : State) : option View :=
  if displayable s then Some (render s) else None.

(* ===================================================================== *)
(** ** The world and the event loop *)
(* ===================================================================== *)

(** What leaves the component. *)
Inductive output : Type :=
| Navigated (path : jsstring)
| Requested (url : jsstring) (init : RequestInit)
| BodyRead (r : Response)
| DefaultPrevented.

Definition Storage := list (jsstring * jsstring).

Fixpoint getItem (k : jsstring) (st : Storage) : option jsstring :=
  match st with
  | [] => None
  | (k', v) :: rest => if JS.eqb k k' then Some v else getItem k rest
  end.

Definition removeItem (k : jsstring) (st : Storage) : Storage :=
  filter (fun kv => negb (JS.eqb k (fst kv))) st.

Record World : Type := {
  state : State;
  localStorage : Storage;
  log : list output
}.

(** What the clock shows during one turn of the event loop: the value of
    [Date.now()] and of [new Date().toISOString()]. *)
Record Clock : Type := {
  clock_now : Z;
  clock_iso : jsstring
}.

Definition set_state (f : State -> State) (w : World) : World :=
  {| state := f (state w); localStorage := localStorage w; log := log w |}.

Definition emit (o : output) (w : World) : World :=
  {| state := state w; localStorage := localStorage w; log := log w ++ [o] |}.

Definition do_eff {X : Type} (e : eff X) (c : Clock) (w : World) : World * X :=
  match e in eff X return World * X with
  | localStorage_getItem k => (w, getItem k (localStorage w))
  | localStorage_removeItem k =>
      ({| state := state w; localStorage := removeItem k (localStorage w);
          log := log w |}, tt)
  | navigate path => (emit (Navigated path) w, tt)
  | Date_now => (w, clock_now c)
  | new_Date_toISOString => (w, clock_iso c)
  | preventDefault => (emit DefaultPrevented w, tt)
  | setInputMessage v =>
      (set_state (fun s => {| inputMessage := v; messages := messages s;
                              isLoading := isLoading s; error := error s;
                              related := related s |}) w, tt)
  | setMessages f =>
      (set_state (fun s => {| inputMessage := inputMessage s;
                              messages := f (messages s);
                              isLoading := isLoading s; error := error s;
                              related := related s |}) w, tt)
  | setIsLoading b =>
      (set_state (fun s => {| inputMessage := inputMessage s;
                              messages := messages s;
                              isLoading := b; error := error s;
                              related := related s |}) w, tt)
  | setError v =>
      (set_state (fun s => {| inputMessage := inputMessage s;
                              messages := messages s;
                              isLoading := isLoading s; error := v;
                              related := related s |}) w, tt)
  | setRelated v =>
      (set_state (fun s => {| inputMessage := inputMessage s;
                              messages := messages s;
                              isLoading := isLoading s; error := error s;
                              related := v |}) w, tt)
  end.

(** Creating a promise is what reaches the outside: [fetch] sends the
    request, [response.json()] reads the body. *)
Definition issue {X : Type} (p : promise X) (w : World) : World :=
  match p with
  | fetch url init => emit (Requested url init) w
  | response_json r => emit (BodyRead r) w
  end.

(** A handler parked at an [await]. *)
Inductive pending : Type :=
| Pending (X : Type) (p : promise X) (k : thrown + X -> prog unit).

Inductive result : Type :=
| Finished
| Uncaught (e : thrown)
| Suspended (t : pending).

(** One turn: the program runs until it ends or reaches an [await]. *)
Fixpoint run (c : Clock) (p : prog unit) (w : World) : World * result :=
  match p with
  | Ret _ => (w, Finished)
  | Throw e => (w, Uncaught e)
  | Do e k => let (w', x) := do_eff e c w in run c (k x) w'
  | Await q k => (issue q w, Suspended (Pending q k))
  end.

Definition on_fetch (t : pending) (r : thrown + Response) : option (prog unit) :=
  match t with
  | Pending p k =>
      match p in promise X return (thrown + X -> prog unit) -> option (prog unit) with
      | fetch _ _ => fun k => Some (k r)
      | response_json _ => fun _ => None
      end k
  end.

Definition on_json (t : pending) : option (prog unit) :=
  match t with
  | Pending p k =>
      match p in promise X return (thrown + X -> prog unit) -> option (prog unit) with
      | fetch _ _ => fun _ => None
      | response_json r => fun k => Some (k (json r))
      end k
  end.

(** The page: the world and the handlers parked at an [await]; a slot is
    emptied when its handler has run to its end. *)
Record System : Type := {
  world : World;
  tasks : list (option pending)
}.

Definition slot (r : result) : option pending :=
  match r with Suspended t => Some t | Finished | Uncaught _ => None end.

Fixpoint set_nth {A : Type} (i : nat) (a : A) (l : list A) : list A :=
  match l, i with
  | [], _ => []
  | _ :: l', O => a :: l'
  | x :: l', S i' => x :: set_nth i' a l'
  end.

(** A handler is called. *)
Definition call (c : Clock) (p : prog unit) (sys : System) : System :=
  let (w, r) := run c p (world sys) in
  {| world := w;
     tasks := match r with
              | Suspended t => tasks sys ++ [Some t]
              | Finished | Uncaught _ => tasks sys
              end |}.

(** The handler parked in slot [i] goes on with [p]. *)
Definition resume (c : Clock) (i : nat) (p : prog unit) (sys : System) : System :=
  let (w, r) := run c p (world sys) in
  {| world := w; tasks := set_nth i (slot r) (tasks sys) |}.

(** What can happen on the page.  [Submit] and [KeyDown] reach their
    handlers in any state, as a scripted submission or key event does;
    a click on a suggestion reaches [onClick] only when the button is not
    shown disabled, React drops clicks on disabled buttons.
    [Call_sendMessage] is [sendMessage] called as such.  [FetchSettled] and
    [JsonSettled] name the slot of the parked handler they wake up; the body
    read settles to what the response holds. *)
Inductive event : Type :=
| Mount
| Change (v : jsstring)
| Submit
| KeyDown (key : jsstring) (shiftKey : bool)
| ClickClear
| ClickLogout
| ClickRelated (i : nat)
| Call_sendMessage (messageText : jsstring)
| FetchSettled (task : nat) (r : thrown + Response)
| JsonSettled (task : nat).

Definition step (c : Clock) (ev : event) (sys : System) : System :=
  let s := state (world sys) in
  match ev with
  | Mount => call c mount_guard sys
  | Change v => call c (onChange v) sys
  | Submit => call c (handleSubmit s) sys
  | KeyDown k shift => call c (onKeyDown s k shift) sys
  | ClickClear => call c handleClear sys
  | ClickLogout => call c handleLogout sys
  | ClickRelated i =>
      match nth_error (suggestions (render s)) i with
      | Some b => if disabled b then sys else call c (onClick b) sys
      | None => sys
      end
  | Call_sendMessage messageText => call c (sendMessage messageText) sys
  | FetchSettled i r =>
      match nth_error (tasks sys) i with
      | Some (Some t) =>
          match on_fetch t r with
          | Some p => resume c i p sys
          | None => sys
          end
      | _ => sys
      end
  | JsonSettled i =>
      match nth_error (tasks sys) i with
      | Some (Some t) =>
          match on_json t with
          | Some p => resume c i p sys
          | None => sys
          end
      | _ => sys
      end
  end.

Fixpoint steps (trace : list (Clock * event)) (sys : System) : System :=
  match trace with
  | [] => sys
  | (c, ev) :: rest => steps rest (step c ev sys)
  end.

(** A page with nothing in flight. *)
Definition idle (w : World) : System := {| world := w; tasks := [] |}.

(* ===================================================================== *)
(** ** [sendMessage], turn by turn *)
(* ===================================================================== *)

(** The token that passes the guard [if (!token)]: stored under ["token"]
    and not the empty string.  When there is none, [sendMessage] and the
    mount effect treat the token as absent. *)
Definition AuthToken (st : Storage) : option jsstring :=
  match getItem (lit "token") st with
  | Some (c :: t) => Some (c :: t)
  | Some [] | None => None
  end.

(** The second argument of the [fetch] call. *)
Definition request (token messageText : jsstring) : RequestInit :=
  {| method := lit "POST";
     headers := [ (lit "Content-Type", lit "application/json");
                  (lit "Authorization", lit "Bearer " ++ token) ];
     body := JSON_stringify (Obj [ (lit "message", Str messageText) ]) |}.

(** The [catch] and [finally] blocks. *)
Definition on_error (err : thrown) : prog unit :=
  perform (setError (describe err)).

Definition at_last : prog unit := perform (setIsLoading false).

(** The [try] block from [const botMessage] on. *)
Definition on_data (data : value) : prog unit :=
  now <- perform Date_now ;;
  txt <- reply_text data ;;
  iso <- perform new_Date_toISOString ;;
  perform (setMessages (fun prev => prev ++
    [ {| id := toString (now + 1); text := txt; sender := bot;
         timestamp := iso; status := None |} ])) ;;
  rel <- eval (get data f_related) ;;
  perform (setRelated (logical_or rel Null)).

(** The [try] block from [if (!response.ok)] on. *)
Definition on_response (response : Response) : prog unit :=
  if negb (ok response) then Throw (Error Failed_to_send_message)
  else data <- await (response_json response) ;; on_data data.

(** What is left of [sendMessage] when [fetch] settles, and when
    [response.json()] settles. *)
Definition after_fetch (r : thrown + Response) : prog unit :=
  try_catch_finally (response <- eval r ;; on_response response)
                    on_error at_last.

Definition after_json (r : thrown + value) : prog unit :=
  try_catch_finally (data <- eval r ;; on_data data) on_error at_last.

(** The handlers [sendMessage] leaves parked. *)
Inductive sendMessage_task : pending -> Prop :=
| awaiting_fetch url init :
    sendMessage_task (Pending (fetch url init) after_fetch)
| awaiting_json r :
    sendMessage_task (Pending (response_json r) after_json).

Definition user_message (c : Clock) (messageText : jsstring) : Message :=
  {| id := toString (clock_now c); text := Str messageText; sender := user;
     timestamp := clock_iso c; status := None |}.

Definition bot_message (c : Clock) (txt : value) : Message :=
  {| id := toString (clock_now c + 1); text := txt; sender := bot;
     timestamp := clock_iso c; status := None |}.

(** The world after the synchronous part of a send, the request aside. *)
Definition started (c : Clock) (messageText : jsstring) (w : World) : World :=
  {| state := {| inputMessage := empty;
                 messages := messages (state w) ++ [user_message c messageText];
                 isLoading := true;
                 error := empty;
                 related := Null |};
     localStorage := localStorage w;
     log := log w |}.

(** The world when [sendMessage] parks at [fetch]. *)
Definition in_flight (c : Clock) (token messageText : jsstring) (w : World) : World :=
  emit (Requested endpoint (request token messageText)) (started c messageText w).

(** The world after the [catch] and [finally] blocks. *)
Definition failed (description : jsstring) (w : World) : World :=
  {| state := {| inputMessage := inputMessage (state w);
                 messages := messages (state w);
                 isLoading := false;
                 error := description;
                 related := related (state w) |};
     localStorage := localStorage w;
     log := log w |}.

(** The world after a reply went through. *)
Definition replied (c : Clock) (txt rel : value) (w : World) : World :=
  {| state := {| inputMessage := inputMessage (state w);
                 messages := messages (state w) ++ [bot_message c txt];
                 isLoading := false;
                 error := error (state w);
                 related := logical_or rel Null |};
     localStorage := localStorage w;
     log := log w |}.

(** One send with nothing happening in between: the call, which takes the
    next free slot, the settling of its [fetch] with [outcome], the settling
    of its [response.json()]. *)
Definition send (c1 : Clock) (messageText : jsstring)
    (c2 : Clock) (outcome : thrown + Response) (c3 : Clock) (sys : System) : System :=
  let slot := List.length (tasks sys) in
  steps [ (c1, Call_sendMessage messageText);
          (c2, FetchSettled slot outcome);
          (c3, JsonSettled slot) ] sys.

(** The requests in a log. *)
Fixpoint requests (l : list output) : list (jsstring * RequestInit) :=
  match l with
  | [] => []
  | Requested url init :: l' => (url, init) :: requests l'
  | _ :: l' => requests l'
  end.

(** The body reads in a log. *)
Fixpoint body_reads (l : list output) : list Response :=
  match l with
  | [] => []
  | BodyRead r :: l' => r :: body_reads l'
  | _ :: l' => body_reads l'
  end.

(** Every parked handler is one of [sendMessage]. *)
Definition parked_by_sendMessage (ts : list (option pending)) : Prop :=
  Forall (fun t => match t with
                   | Some p => sendMessage_task p
                   | None => True
                   end) ts.

(** What one turn at clock [c] may do to the history: nothing, or one more
    message, whose id is the decimal of [Date.now()] or of [Date.now() + 1]. *)
Definition appends_at (c : Clock) (before after : list Message) : Prop :=
  after = before \/
  exists m, after = before ++ [m] /\
            (id m = toString (clock_now c) \/ id m = toString (clock_now c + 1)).

(** A turn of a handler that keeps to that, and parks only [sendMessage]. *)
Definition orderly (c : Clock) (w : World) (out : World * result) : Prop :=
  appends_at c (messages (state w)) (messages (state (fst out))) /\
  match snd out with
  | Suspended t => sendMessage_task t
  | Finished | Uncaught _ => True
  end.

Definition is_clear (ev : event) : bool :=
  match ev with ClickClear => true | _ => false end.

(** The clock reading behind the id of a message appended in a turn at
    clock [c]: [Date.now()] for a user message, [Date.now() + 1] for a bot
    message. *)
Definition stamp (c : Clock) (m : Message) : Z :=
  match sender m with
  | user => clock_now c
  | bot => (clock_now c + 1)%Z
  end.

(** The stamps of the messages in the history after [trace], in the order
    of the history, given those of the history before it: each turn adds
    the stamps of the messages it appends, Clear Chat drops them all. *)
Fixpoint stamps (known : list Z) (trace : list (Clock * event)) (sys : System)
    : list Z :=
  match trace with
  | [] => known
  | (c, ev) :: rest =>
      let sys' := step c ev sys in
      let appended :=
        skipn (List.length (messages (state (world sys))))
              (messages (state (world sys'))) in
      stamps (if is_clear ev then [] else known ++ map (stamp c) appended)
             rest sys'
  end.

Definition ids (sys : System) : list jsstring :=
  map id (messages (state (world sys))).

(** *** Sample inputs *)

Definition at_ms (t : Z) : Clock :=
  {| clock_now := t; clock_iso := lit "2025-01-01T00:00:00.000Z" |}.

Definition fresh_state : State :=
  {| inputMessage := empty; messages := []; isLoading := false;
     error := empty; related := Null |}.

(** A page of a logged-in user, and of one who is not. *)
Definition logged_in : World :=
  {| state := fresh_state;
     localStorage := [ (lit "token", lit "secret") ];
     log := [] |}.

Definition logged_out : World :=
  {| state := fresh_state; localStorage := []; log := [] |}.

(** A page on which the last send failed: the network was down. *)
Definition after_failure : System :=
  send (at_ms 1000) (lit "hi") (at_ms 1200)
       (inl (Error (lit "Failed to fetch"))) (at_ms 1201) (idle logged_in).

Definition respond (status : Z) (data : value) : Response :=
  {| status_code := status; json := inr data |}.

Definition body_A_B : value :=
  Obj [ (lit "message", Str (lit "A")); (lit "reply", Str (lit "B")) ].



(** The scenario of the leave policy: the question, and a reply that comes
    with one related question. *)
Definition leave_policy_reply : value :=
  Obj [ (lit "message", Str (lit "You get 20 days."));
        (lit "related",
         Obj [ (lit "carry_over", Str (lit "Can leave carry over?")) ]) ].

Definition leave_policy : System :=
  send (at_ms 1000) (lit "What is the leave policy?")
       (at_ms 1200) (inr (respond 200 leave_policy_reply))
       (at_ms 1201) (idle logged_in).

(** A reply at 1200 ms and the next send one millisecond later. *)
Definition quick_follow_up : list (Clock * event) :=
  [ (at_ms 1000, Call_sendMessage (lit "hi"));
    (at_ms 1200, FetchSettled 0 (inr (respond 200 body_A_B)));
    (at_ms 1200, JsonSettled 0);
    (at_ms 1201, Call_sendMessage (lit "more")) ].

(** Two sends one after the other, each turn well after the one before. *)
Definition two_sends : list (Clock * event) :=
  [ (at_ms 1000, Change (lit "hi"));
    (at_ms 1500, Submit);
    (at_ms 1700, FetchSettled 0 (inr (respond 200 leave_policy_reply)));
    (at_ms 1702, JsonSettled 0);
    (at_ms 2500, ClickRelated 0);
    (at_ms 2700, FetchSettled 1 (inr (respond 500 Null))) ].

(* ===================================================================== *)
(** ** The turns the page can take *)
(* ===================================================================== *)

(** Outputs other than a request and a body read. *)
Definition quiet (o : output) : bool :=
  match o with
  | Navigated _ | DefaultPrevented => true
  | Requested _ _ | BodyRead _ => false
  end.

(** [w'] is [w] with some quiet outputs more in the log. *)
Definition quietly (w w' : World) : Prop :=
  state w' = state w /\
  localStorage w' = localStorage w /\
  exists outs, log w' = log w ++ outs /\ forallb quiet outs = true.

(** The world after [onChange], after [handleClear] and after
    [handleLogout]. *)
Definition typed (v : jsstring) (w : World) : World :=
  {| state := {| inputMessage := v;
                 messages := messages (state w);
                 isLoading := isLoading (state w);
                 error := error (state w);
                 related := related (state w) |};
     localStorage := localStorage w;
     log := log w |}.

Definition cleared (w : World) : World :=
  {| state := {| inputMessage := inputMessage (state w);
                 messages := [];
                 isLoading := isLoading (state w);
                 error := empty;
                 related := Null |};
     localStorage := localStorage w;
     log := log w |}.

Definition signed_out (w : World) : World :=
  {| state := state w;
     localStorage := removeItem (lit "token") (localStorage w);
     log := log w ++ [ Navigated (lit "/login") ] |}.

(** [sendMessage] called as such, not through a control of the page. *)
Definition is_direct (ev : event) : bool :=
  match ev with Call_sendMessage _ => true | _ => false end.

(** Every way a turn of the page can go.  A send starts only with a token;
    through the controls of the page it starts only when none is pending. *)
Inductive turn (c : Clock) (ev : event) (sys : System) : System -> Prop :=
| turn_quiet w' :
    quietly (world sys) w' ->
    turn c ev sys {| world := w'; tasks := tasks sys |}
| turn_typed v :
    turn c ev sys {| world := typed v (world sys); tasks := tasks sys |}
| turn_cleared :
    ev = ClickClear ->
    turn c ev sys {| world := cleared (world sys); tasks := tasks sys |}
| turn_signed_out :
    turn c ev sys {| world := signed_out (world sys); tasks := tasks sys |}
| turn_started w0 token messageText :
    quietly (world sys) w0 ->
    AuthToken (localStorage (world sys)) = Some token ->
    is_direct ev = true \/ isLoading (state (world sys)) = false ->
    turn c ev sys
      {| world := in_flight c token messageText w0;
         tasks := tasks sys ++
           [ Some (Pending (fetch endpoint (request token messageText))
                           after_fetch) ] |}
| turn_failed i t description :
    nth_error (tasks sys) i = Some (Some t) ->
    turn c ev sys
      {| world := failed description (world sys);
         tasks := set_nth i None (tasks sys) |}
| turn_body i url init r :
    nth_error (tasks sys) i = Some (Some (Pending (fetch url init) after_fetch)) ->
    ok r = true ->
    turn c ev sys
      {| world := emit (BodyRead r) (world sys);
         tasks := set_nth i (Some (Pending (response_json r) after_json))
                          (tasks sys) |}
| turn_replied i t txt rel :
    nth_error (tasks sys) i = Some (Some t) ->
    turn c ev sys
      {| world := replied c txt rel (world sys);
         tasks := set_nth i None (tasks sys) |}.

(** The handlers in flight. *)
Definition in_flight_count (ts : list (option pending)) : nat :=
  List.length (filter (fun t => match t with Some _ => true | None => false end) ts).

Definition is_user (m : Message) : bool := negb (is_bot m).

(** The request that posts the text of message [m] with [token]. *)
Definition posting (token : jsstring) (m : Message) : jsstring * RequestInit :=
  (endpoint,
   {| method := lit "POST";
      headers := [ (lit "Content-Type", lit "application/json");
                   (lit "Authorization", lit "Bearer " ++ token) ];
      body := JSON_stringify (Obj [ (lit "message", text m) ]) |}).

(** A reply whose related question is an object, not a text. *)
Definition object_question_reply : value :=
  Obj [ (lit "message", Str (lit "ok"));
        (lit "related", Obj [ (lit "k", Obj [ (lit "q", Str (lit "Q")) ]) ]) ].

(** A send during which Clear Chat is clicked. *)
Definition send_and_clear (c1 : Clock) (messageText : jsstring) (c2 c3 : Clock)
    (outcome : thrown + Response) (c4 : Clock) (sys : System) : System :=
  let slot := List.length (tasks sys) in
  steps [ (c1, Call_sendMessage messageText);
          (c2, ClickClear);
          (c3, FetchSettled slot outcome);
          (c4, JsonSettled slot) ] sys.

(** A page with some text typed in. *)
Definition typing (v : jsstring) : System :=
  step (at_ms 900) (Change v) (idle logged_in).

Definition via_the_page (ev : event) : bool := negb (is_direct ev).

Definition not_clear (ev : event) : bool := negb (is_clear ev).

Definition any_event (ev : event) : bool := true.

(** A busy session through the controls of the page only. *)
Definition session : list (Clock * event) :=
  [ (at_ms 1000, Mount);
    (at_ms 1100, Change (lit "hi"));
    (at_ms 1500, KeyDown (lit "Enter") false);
    (at_ms 1501, Submit);
    (at_ms 1502, Change (lit "again"));
    (at_ms 1503, KeyDown (lit "Enter") false);
    (at_ms 1700, FetchSettled 0 (inr (respond 200 leave_policy_reply)));
    (at_ms 1702, JsonSettled 0);
    (at_ms 2500, ClickRelated 0);
    (at_ms 2501, ClickRelated 0);
    (at_ms 2600, ClickClear) ].

(** The position of the last bot message among [l], counting from [k]. *)
Fixpoint last_bot_from (k : nat) (l : list Message) : option nat :=
  match l with
  | [] => None
  | m :: l' =>
      match last_bot_from (S k) l' with
      | Some j => Some j
      | None => if is_bot m then Some k else None
      end
  end.

(* ===================================================================== *)
(** ** The earlier page *)
(* ===================================================================== *)

(** [src/ChatPage.tsx], the page before the suggestions came: no [related]
    cell, no [sendMessage] of its own, no key handler on the input.  The
    state record is shared with the later page; its [related] field is
    carried along and never written. *)
Module Plain.

Definition handleClear : prog unit :=
  perform (setMessages (fun _ => [])) ;;
  perform (setError empty).

Definition handleSubmit (s : State) : prog unit :=
  perform preventDefault ;;
  if negb (truthy (Str (trim (inputMessage s)))) || isLoading s then Ret tt
  else
    token <- perform (localStorage_getItem (lit "token")) ;;
    match token with
    | None | Some [] =>
        perform (navigate (lit "/login"))
    | Some token =>
        now <- perform Date_now ;;
        iso <- perform new_Date_toISOString ;;
        let userMessage :=
          {| id := toString now; text := Str (inputMessage s); sender := user;
             timestamp := iso; status := None |} in
        perform (setMessages (fun prev => prev ++ [userMessage])) ;;
        perform (setIsLoading true) ;;
        perform (setInputMessage empty) ;;
        perform (setError empty) ;;
        try_catch_finally
          (response <- await (fetch endpoint
             {| method := lit "POST";
                headers := [ (lit "Content-Type", lit "application/json");
                             (lit "Authorization", lit "Bearer " ++ token) ];
                body := JSON_stringify
                          (Obj [ (lit "message", text userMessage) ]) |}) ;;
           if negb (ok response) then Throw (Error Failed_to_send_message)
           else
             data <- await (response_json response) ;;
             now <- perform Date_now ;;
             txt <- reply_text data ;;
             iso <- perform new_Date_toISOString ;;
             let botMessage :=
               {| id := toString (now + 1); text := txt; sender := bot;
                  timestamp := iso; status := None |} in
             perform (setMessages (fun prev => prev ++ [botMessage])))
          (fun err => perform (setError (describe err)))
          (perform (setIsLoading false))
    end.

(** What is left of [handleSubmit] at its two [await]s. *)
Definition on_data (data : value) : prog unit :=
  now <- perform Date_now ;;
  txt <- reply_text data ;;
  iso <- perform new_Date_toISOString ;;
  perform (setMessages (fun prev => prev ++
    [ {| id := toString (now + 1); text := txt; sender := bot;
         timestamp := iso; status := None |} ])).

Definition on_response (response : Response) : prog unit :=
  if negb (ok response) then Throw (Error Failed_to_send_message)
  else data <- await (response_json response) ;; on_data data.

Definition after_fetch (r : thrown + Response) : prog unit :=
  try_catch_finally (response <- eval r ;; on_response response)
                    on_error at_last.

Definition after_json (r : thrown + value) : prog unit :=
  try_catch_finally (data <- eval r ;; on_data data) on_error at_last.

(** The events of this page; it has nothing that answers to the others. *)
Definition has (ev : event) : bool :=
  match ev with
  | Mount | Change _ | Submit | ClickClear | ClickLogout
  | FetchSettled _ _ | JsonSettled _ => true
  | KeyDown _ _ | ClickRelated _ | Call_sendMessage _ => false
  end.

Definition step (c : Clock) (ev : event) (sys : System) : System :=
  let s := state (world sys) in
  match ev with
  | Mount => call c mount_guard sys
  | Change v => call c (onChange v) sys
  | Submit => call c (handleSubmit s) sys
  | ClickClear => call c handleClear sys
  | ClickLogout => call c handleLogout sys
  | FetchSettled i r =>
      match nth_error (tasks sys) i with
      | Some (Some t) =>
          match on_fetch t r with
          | Some p => resume c i p sys
          | None => sys
          end
      | _ => sys
      end
  | JsonSettled i =>
      match nth_error (tasks sys) i with
      | Some (Some t) =>
          match on_json t with
          | Some p => resume c i p sys
          | None => sys
          end
      | _ => sys
      end
  | KeyDown _ _ | ClickRelated _ | Call_sendMessage _ => sys
  end.

Fixpoint steps (trace : list (Clock * event)) (sys : System) : System :=
  match trace with
  | [] => sys
  | (c, ev) :: rest => steps rest (step c ev sys)
  end.

(** The world at the first [await], and after a reply. *)
Definition started (c : Clock) (token messageText : jsstring) (w : World) : World :=
  {| state := {| inputMessage := empty;
                 messages := messages (state w) ++ [user_message c messageText];
                 isLoading := true;
                 error := empty;
                 related := related (state w) |};
     localStorage := localStorage w;
     log := log w ++ [ Requested endpoint (request token messageText) ] |}.

Definition replied (c : Clock) (txt : value) (w : World) : World :=
  {| state := {| inputMessage := inputMessage (state w);
                 messages := messages (state w) ++ [bot_message c txt];
                 isLoading := false;
                 error := error (state w);
                 related := related (state w) |};
     localStorage := localStorage w;
     log := log w |}.

End Plain.

(** Two worlds that differ in [related] at most. *)
Definition agree (w w' : World) : Prop :=
  inputMessage (state w) = inputMessage (state w') /\
  messages (state w) = messages (state w') /\
  isLoading (state w) = isLoading (state w') /\
  error (state w) = error (state w') /\
  localStorage w = localStorage w' /\
  log w = log w'.

(** A handler parked by the later page and its like on the earlier one. *)
Inductive alike : option pending -> option pending -> Prop :=
| alike_none : alike None None
| alike_fetch url init :
    alike (Some (Pending (fetch url init) after_fetch))
          (Some (Pending (fetch url init) Plain.after_fetch))
| alike_json r :
    alike (Some (Pending (response_json r) after_json))
          (Some (Pending (response_json r) Plain.after_json)).

(** The two pages in step: the worlds differ in [related] at most and the
    parked handlers correspond. *)
Definition in_step (sys sys' : System) : Prop :=
  agree (world sys) (world sys') /\ Forall2 alike (tasks sys) (tasks sys').

(** A session on the earlier page. *)
Definition plain_session : list (Clock * event) :=
  [ (at_ms 1000, Mount);
    (at_ms 1100, Change (lit "hi"));
    (at_ms 1500, Submit);
    (at_ms 1501, Submit);
    (at_ms 1600, ClickClear);
    (at_ms 1700, FetchSettled 0 (inr (respond 200 leave_policy_reply)));
    (at_ms 1702, JsonSettled 0);
    (at_ms 1800, Change (lit "  "));
    (at_ms 1900, Submit);
    (at_ms 2000, Change (lit "more"));
    (at_ms 2100, Submit);
    (at_ms 2300, FetchSettled 1 (inr (respond 503 Null)));
    (at_ms 2400, ClickLogout);
    (at_ms 2500, Change (lit "still there?"));
    (at_ms 2600, Submit) ].

(** Every bot message comes right after a user message. *)
Definition answered (l : list Message) : Prop :=
  forall i m, nth_error l i = Some m -> is_bot m = true ->
    exists j q, i = S j /\ nth_error l j = Some q /\ is_user q = true.

Definition via_the_page_uncleared (ev : event) : bool :=
  via_the_page ev && not_clear ev.

(* ===================================================================== *)
(** ** Properties *)
(* ===================================================================== *)

(** *** Strings *)

Lemma trimStart_whitespace s :
  forallb is_whitespace s = true -> trimStart s = [].
Proof.
  induction s as [|ch s IH]; simpl; [reflexivity|].
  intros H. apply andb_prop in H. destruct H as [Hc Hs].
  rewrite Hc. exact (IH Hs).
Qed.

Lemma trim_whitespace s :
  forallb is_whitespace s = true -> trim s = [].
Proof.
  intros H. unfold trim. rewrite (trimStart_whitespace s H). reflexivity.
Qed.

Lemma lit_inj a b : lit a = lit b -> a = b.
Proof.
  unfold lit. revert b.
  induction a as [|x a IH]; intros [|y b]; simpl; intros H;
    try discriminate; [reflexivity|].
  injection H as Hxy Hab.
  rewrite <- (ascii_N_embedding x), <- (ascii_N_embedding y), Hxy.
  f_equal. exact (IH _ Hab).
Qed.

Lemma toString_inj x y : toString x = toString y -> x = y.
Proof.
  unfold toString. intros H. apply lit_inj in H.
  assert (E : NilEmpty.int_of_string (NilEmpty.string_of_int (Z.to_int x))
            = NilEmpty.int_of_string (NilEmpty.string_of_int (Z.to_int y)))
    by (rewrite H; reflexivity).
  rewrite !NilEmpty.isi in E. injection E as E.
  rewrite <- (DecimalZ.of_to x), <- (DecimalZ.of_to y), E. reflexivity.
Qed.

(** *** The turns of [sendMessage] *)

Section Turns.

Variable c : Clock.
Variable w : World.

Lemma AuthToken_None :
  AuthToken (localStorage w) = None ->
  getItem (lit "token") (localStorage w) = None \/
  getItem (lit "token") (localStorage w) = Some [].
Proof.
  unfold AuthToken.
  destruct (getItem (lit "token") (localStorage w)) as [[|]|]; auto; discriminate.
Qed.

Lemma AuthToken_Some token :
  AuthToken (localStorage w) = Some token ->
  getItem (lit "token") (localStorage w) = Some token /\ token <> [].
Proof.
  unfold AuthToken.
  destruct (getItem (lit "token") (localStorage w)) as [[|]|];
    intros H; try discriminate.
  injection H as <-. split; [reflexivity | discriminate].
Qed.

Lemma run_sendMessage_no_token messageText :
  AuthToken (localStorage w) = None ->
  run c (sendMessage messageText) w = (emit (Navigated (lit "/login")) w, Finished).
Proof.
  intros H. unfold sendMessage. cbn [bind perform run do_eff].
  destruct (AuthToken_None H) as [E|E]; rewrite E; reflexivity.
Qed.

Lemma run_sendMessage_token messageText token :
  AuthToken (localStorage w) = Some token ->
  run c (sendMessage messageText) w =
  (emit (Requested endpoint (request token messageText)) (started c messageText w),
   Suspended (Pending (fetch endpoint (request token messageText)) after_fetch)).
Proof.
  intros H. destruct (AuthToken_Some H) as [E Hne].
  unfold sendMessage. cbn [bind perform run do_eff]. rewrite E.
  destruct token as [|t0 token]; [contradiction|]. reflexivity.
Qed.

Lemma run_after_fetch_rejected e :
  run c (after_fetch (inl e)) w = (failed (describe e) w, Finished).
Proof. reflexivity. Qed.

Lemma run_after_fetch_not_ok r :
  ok r = false ->
  run c (after_fetch (inr r)) w = (failed Failed_to_send_message w, Finished).
Proof.
  intros H. unfold after_fetch, try_catch_finally, try_finally, on_response.
  cbn [eval bind]. rewrite H. reflexivity.
Qed.

Lemma run_after_fetch_ok r :
  ok r = true ->
  run c (after_fetch (inr r)) w =
  (emit (BodyRead r) w, Suspended (Pending (response_json r) after_json)).
Proof.
  intros H. unfold after_fetch, try_catch_finally, try_finally, on_response.
  cbn [eval bind]. rewrite H. reflexivity.
Qed.

Lemma run_after_json_rejected e :
  run c (after_json (inl e)) w = (failed (describe e) w, Finished).
Proof. reflexivity. Qed.

End Turns.

(** A property read throws on [null] and [undefined] only, whatever the
    property. *)
Lemma get_inr data f v f' :
  get data f = inr v -> exists v', get data f' = inr v'.
Proof. destruct data; simpl; intros H; try discriminate; eauto. Qed.

Section Reply.

Variable c : Clock.
Variable w : World.
Variable data : value.

Lemma run_after_json_throws e :
  get data f_message = inl e ->
  run c (after_json (inr data)) w = (failed (describe e) w, Finished).
Proof.
  intros H. unfold after_json, try_catch_finally, try_finally, on_data, reply_text.
  cbn [eval bind perform try_catch]. rewrite H. reflexivity.
Qed.

Lemma run_after_json_data m rp rel :
  get data f_message = inr m ->
  get data f_reply = inr rp ->
  get data f_related = inr rel ->
  run c (after_json (inr data)) w =
  (replied c (logical_or m (logical_or rp (Str placeholder))) rel w, Finished).
Proof.
  intros Hm Hr Hrel.
  unfold after_json, try_catch_finally, try_finally, on_data, reply_text.
  cbn [eval bind perform try_catch]. rewrite Hm. cbn [eval bind try_catch].
  unfold logical_or. destruct (truthy m).
  - cbn [eval bind perform try_catch run do_eff]. rewrite Hrel. reflexivity.
  - cbn [eval bind perform try_catch run do_eff]. rewrite Hr.
    cbn [eval bind perform try_catch run do_eff]. rewrite Hrel. reflexivity.
Qed.

End Reply.

(** *** One send *)

Lemma nth_error_snoc {A : Type} (l : list A) a :
  nth_error (l ++ [a]) (List.length l) = Some a.
Proof. induction l as [|x l IH]; simpl; auto. Qed.

Lemma set_nth_snoc {A : Type} (l : list A) a b :
  set_nth (List.length l) b (l ++ [a]) = l ++ [b].
Proof. induction l as [|x l IH]; simpl; [|rewrite IH]; reflexivity. Qed.

Section Send.

Variables c1 c2 c3 : Clock.
Variable messageText : jsstring.
Variable sys : System.

Lemma send_no_token outcome :
  AuthToken (localStorage (world sys)) = None ->
  send c1 messageText c2 outcome c3 sys =
  {| world := emit (Navigated (lit "/login")) (world sys); tasks := tasks sys |}.
Proof.
  intros H. unfold send, steps, step at 3, call.
  rewrite (run_sendMessage_no_token c1 (world sys) messageText H).
  unfold step. cbn [tasks].
  rewrite !(proj2 (nth_error_None (tasks sys) (List.length (tasks sys))) (le_n _)).
  cbn [tasks].
  rewrite (proj2 (nth_error_None (tasks sys) (List.length (tasks sys))) (le_n _)).
  reflexivity.
Qed.

Variable token : jsstring.
Hypothesis Htoken : AuthToken (localStorage (world sys)) = Some token.

Local Abbreviation w1 := (in_flight c1 token messageText (world sys)).

Lemma send_call :
  step c1 (Call_sendMessage messageText) sys =
  {| world := w1;
     tasks := tasks sys ++
       [ Some (Pending (fetch endpoint (request token messageText)) after_fetch) ] |}.
Proof.
  unfold step, call.
  rewrite (run_sendMessage_token c1 (world sys) messageText Htoken). reflexivity.
Qed.

(** The turn in which the [fetch] of this send settles. *)
Lemma send_fetch_settled outcome :
  steps [ (c1, Call_sendMessage messageText);
          (c2, FetchSettled (List.length (tasks sys)) outcome) ] sys =
  {| world := fst (run c2 (after_fetch outcome) w1);
     tasks := tasks sys ++ [ slot (snd (run c2 (after_fetch outcome) w1)) ] |}.
Proof.
  unfold steps. rewrite send_call.
  unfold step. cbn [tasks]. rewrite nth_error_snoc. cbn [on_fetch].
  unfold resume. cbn [world tasks].
  destruct (run c2 (after_fetch outcome) w1) as [w' r]. cbn [fst snd].
  rewrite set_nth_snoc. reflexivity.
Qed.

Lemma send_unfold outcome :
  send c1 messageText c2 outcome c3 sys =
  step c3 (JsonSettled (List.length (tasks sys)))
    (steps [ (c1, Call_sendMessage messageText);
             (c2, FetchSettled (List.length (tasks sys)) outcome) ] sys).
Proof. reflexivity. Qed.

Lemma send_rejected e :
  send c1 messageText c2 (inl e) c3 sys =
  {| world := failed (describe e) w1; tasks := tasks sys ++ [ None ] |}.
Proof.
  rewrite send_unfold, send_fetch_settled, run_after_fetch_rejected.
  unfold step. cbn [tasks fst snd slot]. rewrite nth_error_snoc. reflexivity.
Qed.

Lemma send_not_ok r :
  ok r = false ->
  send c1 messageText c2 (inr r) c3 sys =
  {| world := failed Failed_to_send_message w1; tasks := tasks sys ++ [ None ] |}.
Proof.
  intros H.
  rewrite send_unfold, send_fetch_settled, (run_after_fetch_not_ok c2 w1 r H).
  unfold step. cbn [tasks fst snd slot]. rewrite nth_error_snoc. reflexivity.
Qed.

(** The turn in which the body read of this send settles. *)
Lemma send_json_settled r :
  ok r = true ->
  send c1 messageText c2 (inr r) c3 sys =
  {| world := fst (run c3 (after_json (json r)) (emit (BodyRead r) w1));
     tasks := tasks sys ++
       [ slot (snd (run c3 (after_json (json r)) (emit (BodyRead r) w1))) ] |}.
Proof.
  intros H.
  rewrite send_unfold, send_fetch_settled, (run_after_fetch_ok c2 w1 r H).
  unfold step. cbn [tasks fst snd slot]. rewrite nth_error_snoc. cbn [on_json].
  unfold resume. cbn [world tasks].
  destruct (run c3 (after_json (json r)) (emit (BodyRead r) w1)) as [w' res].
  cbn [fst snd]. rewrite set_nth_snoc. reflexivity.
Qed.

Lemma send_body_rejected r e :
  ok r = true -> json r = inl e ->
  send c1 messageText c2 (inr r) c3 sys =
  {| world := failed (describe e) (emit (BodyRead r) w1);
     tasks := tasks sys ++ [ None ] |}.
Proof.
  intros H E. rewrite (send_json_settled r H), E. reflexivity.
Qed.

Lemma send_data_throws r data e :
  ok r = true -> json r = inr data -> get data f_message = inl e ->
  send c1 messageText c2 (inr r) c3 sys =
  {| world := failed (describe e) (emit (BodyRead r) w1);
     tasks := tasks sys ++ [ None ] |}.
Proof.
  intros H E G. rewrite (send_json_settled r H), E.
  rewrite (run_after_json_throws c3 (emit (BodyRead r) w1) data G). reflexivity.
Qed.

Lemma send_replied r data m rp rel :
  ok r = true -> json r = inr data ->
  get data f_message = inr m ->
  get data f_reply = inr rp ->
  get data f_related = inr rel ->
  send c1 messageText c2 (inr r) c3 sys =
  {| world := replied c3 (logical_or m (logical_or rp (Str placeholder))) rel
                (emit (BodyRead r) w1);
     tasks := tasks sys ++ [ None ] |}.
Proof.
  intros H E Gm Gr Grel. rewrite (send_json_settled r H), E.
  rewrite (run_after_json_data c3 (emit (BodyRead r) w1) data Gm Gr Grel).
  reflexivity.
Qed.

(** Whatever the outcome, the send runs to its end. *)
Lemma send_ends outcome :
  tasks (send c1 messageText c2 outcome c3 sys) = tasks sys ++ [ None ].
Proof.
  destruct outcome as [e|r]; [rewrite send_rejected; reflexivity|].
  destruct (ok r) eqn:Hok; [|rewrite (send_not_ok r Hok); reflexivity].
  destruct (json r) as [e|data] eqn:Hjson;
    [rewrite (send_body_rejected r Hok Hjson); reflexivity|].
  destruct (get data f_message) as [e|m] eqn:Hm;
    [rewrite (send_data_throws r Hok Hjson Hm); reflexivity|].
  destruct (get_inr data f_message f_reply Hm) as [rp Hrp].
  destruct (get_inr data f_message f_related Hm) as [rel Hrel].
  rewrite (send_replied r Hok Hjson Hm Hrp Hrel). reflexivity.
Qed.

(** Whatever the outcome, the log gets the request, then at most the body
    read. *)
Lemma send_log outcome :
  exists reads,
    log (world (send c1 messageText c2 outcome c3 sys)) =
    log (world sys) ++ Requested endpoint (request token messageText) :: reads /\
    requests reads = [] /\
    (forall r, outcome = inr r -> ok r = false -> reads = []).
Proof.
  destruct outcome as [e|r].
  { exists []. rewrite send_rejected. repeat split. }
  destruct (ok r) eqn:Hok.
  2:{ exists []. rewrite (send_not_ok r Hok). repeat split. }
  exists [BodyRead r].
  assert (E : log (world (send c1 messageText c2 (inr r) c3 sys)) =
              log (world sys) ++
              [ Requested endpoint (request token messageText); BodyRead r ]).
  { destruct (json r) as [e|data] eqn:Hjson.
    { rewrite (send_body_rejected r Hok Hjson).
      cbn [world failed log emit in_flight started]. rewrite <- app_assoc. reflexivity. }
    destruct (get data f_message) as [e|m] eqn:Hm.
    { rewrite (send_data_throws r Hok Hjson Hm).
      cbn [world failed log emit in_flight started]. rewrite <- app_assoc. reflexivity. }
    destruct (get_inr data f_message f_reply Hm) as [rp Hrp].
    destruct (get_inr data f_message f_related Hm) as [rel Hrel].
    rewrite (send_replied r Hok Hjson Hm Hrp Hrel).
    cbn [world replied log emit in_flight started]. rewrite <- app_assoc. reflexivity. }
  split; [exact E|]. split; [reflexivity|].
  intros r' Hr' Hok'. injection Hr' as <-. congruence.
Qed.

End Send.

(** *** The log *)

Lemma requests_app l l' : requests (l ++ l') = requests l ++ requests l'.
Proof.
  induction l as [|o l IH]; simpl; [reflexivity|].
  destruct o; simpl; rewrite IH; reflexivity.
Qed.

Lemma body_reads_app l l' : body_reads (l ++ l') = body_reads l ++ body_reads l'.
Proof.
  induction l as [|o l IH]; simpl; [reflexivity|].
  destruct o; simpl; rewrite IH; reflexivity.
Qed.

(** *** One send, from the call to its end *)



(** C4: without a token [sendMessage] only signals the navigation to the
    login page: the state and the storage are what they were, nothing is
    requested and nothing stays parked. *)
Theorem sendMessage_without_token c messageText sys :
  AuthToken (localStorage (world sys)) = None ->
  let sys' := step c (Call_sendMessage messageText) sys in
  state (world sys') = state (world sys) /\
  localStorage (world sys') = localStorage (world sys) /\
  log (world sys') = log (world sys) ++ [ Navigated (lit "/login") ] /\
  tasks sys' = tasks sys.
Proof.
  intros H. cbv zeta. unfold step, call.
  rewrite (run_sendMessage_no_token c (world sys) messageText H).
  repeat split.
Qed.

Lemma sendMessage_without_token_witness :
  let sys' := step (at_ms 1000) (Call_sendMessage (lit "hi")) (idle logged_out) in
  state (world sys') = fresh_state /\
  localStorage (world sys') = [] /\
  log (world sys') = [ Navigated (lit "/login") ] /\
  tasks sys' = [].
Proof.
  exact (sendMessage_without_token (at_ms 1000) (lit "hi") (idle logged_out) eq_refl).
Defined.

(** C7: with a token, the synchronous part of [sendMessage] already leaves
    [error] empty and [related] at [null]; the handler is then parked at the
    [fetch], whose outcome is still open. *)
Theorem sendMessage_resets_error_and_related c messageText sys token :
  AuthToken (localStorage (world sys)) = Some token ->
  let sys' := step c (Call_sendMessage messageText) sys in
  error (state (world sys')) = empty /\
  related (state (world sys')) = Null /\
  tasks sys' =
    tasks sys ++
    [ Some (Pending (fetch endpoint (request token messageText)) after_fetch) ].
Proof.
  intros H. cbv zeta. unfold step, call.
  rewrite (run_sendMessage_token c (world sys) messageText H).
  repeat split.
Qed.

Lemma sendMessage_resets_error_and_related_witness :
  error (state (world after_failure)) = lit "Failed to fetch" /\
  let sys' := step (at_ms 3000) (Call_sendMessage (lit "again")) after_failure in
  error (state (world sys')) = empty /\
  related (state (world sys')) = Null /\
  tasks sys' =
    [ None;
      Some (Pending (fetch endpoint (request (lit "secret") (lit "again")))
                    after_fetch) ].
Proof.
  split; [reflexivity|].
  exact (sendMessage_resets_error_and_related
           (at_ms 3000) (lit "again") after_failure eq_refl).
Defined.

(** C8: a send with a token issues one request, whatever the outcome: a
    POST to the message endpoint carrying the bearer token, the JSON content
    type and the text of the user message just appended; when the handler
    has run to its end no further request has been made. *)
Theorem sendMessage_single_request c1 messageText c2 outcome c3 sys token :
  AuthToken (localStorage (world sys)) = Some token ->
  let sys' := send c1 messageText c2 outcome c3 sys in
  requests (log (world sys')) =
    requests (log (world sys)) ++
    [ (lit "http://localhost:3000/api/message",
       {| method := lit "POST";
          headers := [ (lit "Content-Type", lit "application/json");
                       (lit "Authorization", lit "Bearer " ++ token) ];
          body := JSON_stringify (Obj [ (lit "message", Str messageText) ]) |}) ] /\
  messages (state (world (step c1 (Call_sendMessage messageText) sys))) =
    messages (state (world sys)) ++
    [ {| id := toString (clock_now c1); text := Str messageText; sender := user;
         timestamp := clock_iso c1; status := None |} ] /\
  tasks sys' = tasks sys ++ [ None ].
Proof.
  intros H. cbv zeta. split; [|split].
  - destruct (send_log c1 c2 c3 messageText sys H outcome) as (reads & E & Hr & _).
    rewrite E, requests_app. cbn [requests]. rewrite Hr. reflexivity.
  - rewrite (send_call c1 messageText sys H). reflexivity.
  - exact (send_ends c1 c2 c3 messageText sys H outcome).
Qed.

Lemma sendMessage_single_request_witness :
  let sys := send (at_ms 1000) (lit "hi") (at_ms 1200)
                  (inl (Error (lit "Failed to fetch"))) (at_ms 1201)
                  (idle logged_in) in
  requests (log (world sys)) =
    [ (lit "http://localhost:3000/api/message",
       {| method := lit "POST";
          headers := [ (lit "Content-Type", lit "application/json");
                       (lit "Authorization", lit "Bearer secret") ];
          body := JSON_stringify (Obj [ (lit "message", Str (lit "hi")) ]) |}) ] /\
  messages (state (world
    (step (at_ms 1000) (Call_sendMessage (lit "hi")) (idle logged_in)))) =
    [ {| id := lit "1000"; text := Str (lit "hi"); sender := user;
         timestamp := clock_iso (at_ms 1000); status := None |} ] /\
  tasks sys = [ None ].
Proof.
  exact (sendMessage_single_request (at_ms 1000) (lit "hi") (at_ms 1200)
           (inl (Error (lit "Failed to fetch"))) (at_ms 1201) (idle logged_in)
           eq_refl).
Defined.

(** C5, as the code has it: a send that fails puts in [error] the message
    of the thrown [Error] as it is, the empty string included, and the fixed
    text "Failed to send message" when what was thrown is not an [Error] or
    the status is outside 200-299; it appends no bot message and puts
    [isLoading] back to [false].  This for a rejected [fetch], for a status
    outside 200-299, where the body is not read, and for a body that does
    not parse. *)
Theorem sendMessage_failure c1 messageText c2 c3 sys token :
  AuthToken (localStorage (world sys)) = Some token ->
  let fails outcome description :=
    let s := state (world (send c1 messageText c2 outcome c3 sys)) in
    error s = description /\
    messages s = messages (state (world sys)) ++ [ user_message c1 messageText ] /\
    isLoading s = false in
  (forall message, fails (inl (Error message)) message) /\
  (forall v, fails (inl (NotAnError v)) (lit "Failed to send message")) /\
  (forall r, ok r = false ->
     fails (inr r) (lit "Failed to send message") /\
     body_reads (log (world (send c1 messageText c2 (inr r) c3 sys))) =
       body_reads (log (world sys))) /\
  (forall r message, ok r = true -> json r = inl (Error message) ->
     fails (inr r) message) /\
  (forall r v, ok r = true -> json r = inl (NotAnError v) ->
     fails (inr r) (lit "Failed to send message")).
Proof.
  intros H. cbv zeta. split; [|split; [|split; [|split]]].
  - intros message.
    rewrite (send_rejected c1 c2 c3 messageText sys H (Error message)).
    repeat split.
  - intros v.
    rewrite (send_rejected c1 c2 c3 messageText sys H (NotAnError v)).
    repeat split.
  - intros r Hok. rewrite (send_not_ok c1 c2 c3 messageText sys H r Hok).
    repeat split.
    cbn [world failed log in_flight emit started].
    rewrite body_reads_app. apply app_nil_r.
  - intros r message Hok Hjson.
    rewrite (send_body_rejected c1 c2 c3 messageText sys H r Hok Hjson).
    repeat split.
  - intros r v Hok Hjson.
    rewrite (send_body_rejected c1 c2 c3 messageText sys H r Hok Hjson).
    repeat split.
Qed.

Lemma sendMessage_failure_witness :
  let after outcome :=
    state (world (send (at_ms 1000) (lit "hi") (at_ms 1200) outcome
                       (at_ms 1201) (idle logged_in))) in
  let only_user :=
    [ {| id := lit "1000"; text := Str (lit "hi"); sender := user;
         timestamp := clock_iso (at_ms 1000); status := None |} ] in
  (error (after (inl (Error (lit "Failed to fetch")))) = lit "Failed to fetch" /\
   messages (after (inl (Error (lit "Failed to fetch")))) = only_user /\
   isLoading (after (inl (Error (lit "Failed to fetch")))) = false) /\
  (error (after (inl (NotAnError (Str (lit "offline"))))) =
     lit "Failed to send message" /\
   messages (after (inl (NotAnError (Str (lit "offline"))))) = only_user /\
   isLoading (after (inl (NotAnError (Str (lit "offline"))))) = false) /\
  (error (after (inr (respond 500 body_A_B))) = lit "Failed to send message" /\
   messages (after (inr (respond 500 body_A_B))) = only_user /\
   isLoading (after (inr (respond 500 body_A_B))) = false) /\
  (let r := {| status_code := 200;
               json := inl (Error (lit "Unexpected end of JSON input")) |} in
   error (after (inr r)) = lit "Unexpected end of JSON input" /\
   messages (after (inr r)) = only_user /\
   isLoading (after (inr r)) = false).
Proof.
  destruct (sendMessage_failure (at_ms 1000) (lit "hi") (at_ms 1200) (at_ms 1201)
              (idle logged_in) eq_refl)
    as (Hnet & Hother & Hstatus & Hparse & _).
  split; [|split; [|split]].
  - exact (Hnet (lit "Failed to fetch")).
  - exact (Hother (Str (lit "offline"))).
  - exact (proj1 (Hstatus (respond 500 body_A_B) eq_refl)).
  - exact (Hparse {| status_code := 200;
                     json := inl (Error (lit "Unexpected end of JSON input")) |}
                  (lit "Unexpected end of JSON input") eq_refl eq_refl).
Defined.

(** C5 as stated fails: when [fetch] rejects with an [Error] whose message
    is empty, the send has failed and [error] holds neither a description
    nor the fixed text: it is the empty string, as when nothing went wrong,
    and falsy, so that [{error && ...}] shows nothing. *)
Lemma sendMessage_failure_without_description :
  let sys' := send (at_ms 1000) (lit "hi") (at_ms 1200) (inl (Error empty))
                   (at_ms 1201) (idle logged_in) in
  messages (state (world sys')) = [ user_message (at_ms 1000) (lit "hi") ] /\
  isLoading (state (world sys')) = false /\
  error (state (world sys')) = empty /\
  error (state (world sys')) <> lit "Failed to send message" /\
  truthy (Str (error (state (world sys')))) = false /\
  error (state (world sys')) = error (state logged_in).
Proof.
  cbv zeta. repeat split. discriminate.
Qed.

(** *** The form and the buttons *)

(** C10: while a send is pending, or when the input holds nothing but
    white space, the submit handler returns at its guard: the state is what
    it was and nothing is requested.  The same on the Enter key, which calls
    the submit handler. *)
Theorem handleSubmit_guard c sys :
  isLoading (state (world sys)) = true \/
  forallb is_whitespace (inputMessage (state (world sys))) = true ->
  let untouched sys' :=
    state (world sys') = state (world sys) /\
    localStorage (world sys') = localStorage (world sys) /\
    log (world sys') = log (world sys) ++ [ DefaultPrevented ] /\
    tasks sys' = tasks sys in
  untouched (step c Submit sys) /\
  untouched (step c (KeyDown (lit "Enter") false) sys).
Proof.
  intros H. cbv zeta.
  assert (G : negb (truthy (Str (trim (inputMessage (state (world sys))))))
              || isLoading (state (world sys)) = true).
  { destruct H as [H|H].
    - rewrite H. apply orb_true_r.
    - rewrite (trim_whitespace _ H). reflexivity. }
  unfold step, onKeyDown, call, handleSubmit.
  cbn [JS.eqb lit map list_ascii_of_string N_of_ascii N_of_digits N.eqb
       Pos.eqb andb negb bind perform run do_eff].
  rewrite G. repeat split.
Qed.

Lemma handleSubmit_guard_witness :
  let pending := step (at_ms 1000) (Call_sendMessage (lit "hi")) (idle logged_in) in
  let blank := step (at_ms 1000) (Change (lit "   ")) (idle logged_in) in
  (isLoading (state (world pending)) = true /\
   state (world (step (at_ms 1001) Submit pending)) = state (world pending) /\
   tasks (step (at_ms 1001) Submit pending) = tasks pending) /\
  (inputMessage (state (world blank)) = lit "   " /\
   state (world (step (at_ms 1001) (KeyDown (lit "Enter") false) blank)) =
     state (world blank) /\
   tasks (step (at_ms 1001) (KeyDown (lit "Enter") false) blank) = []).
Proof.
  cbv zeta. split.
  - split; [reflexivity|].
    destruct (handleSubmit_guard (at_ms 1001)
                (step (at_ms 1000) (Call_sendMessage (lit "hi")) (idle logged_in))
                (or_introl eq_refl)) as ((Hstate & _ & _ & Htasks) & _).
    split; [exact Hstate | exact Htasks].
  - split; [reflexivity|].
    destruct (handleSubmit_guard (at_ms 1001)
                (step (at_ms 1000) (Change (lit "   ")) (idle logged_in))
                (or_intror eq_refl)) as (_ & (Hstate & _ & _ & Htasks)).
    split; [exact Hstate | exact Htasks].
Defined.

(** C6: Clear Chat empties [messages], [error] and [related]; the input, the
    pending flag, the storage with its token and the handlers in flight stay
    as they are. *)
Theorem clear_resets c sys :
  let sys' := step c ClickClear sys in
  messages (state (world sys')) = [] /\
  error (state (world sys')) = empty /\
  related (state (world sys')) = Null /\
  isLoading (state (world sys')) = isLoading (state (world sys)) /\
  inputMessage (state (world sys')) = inputMessage (state (world sys)) /\
  localStorage (world sys') = localStorage (world sys) /\
  AuthToken (localStorage (world sys')) = AuthToken (localStorage (world sys)) /\
  log (world sys') = log (world sys) /\
  tasks sys' = tasks sys.
Proof. cbv zeta. repeat split. Qed.

(** Every suggestion button on the page comes from an entry of [related]. *)
Lemma suggestions_from_related s b :
  In b (suggestions (render s)) ->
  exists entry, In entry (entries (related s)) /\ b = suggestion s entry.
Proof.
  unfold suggestions, render. cbn [bubbles].
  intros H. apply in_concat in H. destruct H as (l & Hl & Hb).
  apply in_map_iff in Hl. destruct Hl as (bubble & <- & Hbubble).
  apply in_map_iff in Hbubble. destruct Hbubble as ((idx & message) & <- & _).
  cbn [suggested] in Hb.
  destruct (isLastBot (messages s) idx message && truthy (related s));
    [|contradiction].
  apply in_map_iff in Hb. destruct Hb as (entry & <- & He). eauto.
Qed.

(** C2, as the code has it: a suggestion button shows the question of its
    entry and, when clicked, calls [sendMessage] with the intent key of the
    entry; with a token the user message appended and the request body
    carry that key. *)
Theorem related_click_sends_intent c sys i b :
  nth_error (suggestions (render (state (world sys)))) i = Some b ->
  disabled b = false ->
  In (key b, label b) (entries (related (state (world sys)))) /\
  step c (ClickRelated i) sys = step c (Call_sendMessage (key b)) sys /\
  forall token, AuthToken (localStorage (world sys)) = Some token ->
    messages (state (world (step c (ClickRelated i) sys))) =
      messages (state (world sys)) ++
      [ {| id := toString (clock_now c); text := Str (key b); sender := user;
           timestamp := clock_iso c; status := None |} ] /\
    requests (log (world (step c (ClickRelated i) sys))) =
      requests (log (world sys)) ++
      [ (endpoint,
         {| method := lit "POST";
            headers := [ (lit "Content-Type", lit "application/json");
                         (lit "Authorization", lit "Bearer " ++ token) ];
            body := JSON_stringify (Obj [ (lit "message", Str (key b)) ]) |}) ].
Proof.
  intros Hnth Hen.
  destruct (suggestions_from_related _ _ (nth_error_In _ _ Hnth))
    as ((intent & question) & Hin & Hb).
  assert (Hclick : step c (ClickRelated i) sys
                   = step c (Call_sendMessage (key b)) sys).
  { unfold step. rewrite Hnth, Hen. subst b. reflexivity. }
  split; [subst b; exact Hin|]. split; [exact Hclick|].
  intros token Htoken. rewrite Hclick. unfold step, call.
  rewrite (run_sendMessage_token c (world sys) (key b) Htoken).
  cbn [world in_flight emit started state messages log].
  rewrite requests_app. split; reflexivity.
Qed.

Lemma related_click_sends_intent_witness :
  map label (suggestions (render (state (world leave_policy)))) =
    [ Str (lit "Can leave carry over?") ] /\
  step (at_ms 5000) (ClickRelated 0) leave_policy =
    step (at_ms 5000) (Call_sendMessage (lit "carry_over")) leave_policy.
Proof.
  split; [reflexivity|].
  exact (proj1 (proj2
    (related_click_sends_intent (at_ms 5000) leave_policy 0 eq_refl eq_refl))).
Defined.

(** C2 as stated fails: in the leave-policy scenario the button reads
    "Can leave carry over?", and the click appends and sends "carry_over",
    which is not what submitting the question does. *)
Lemma related_click_not_question :
  map label (suggestions (render (state (world leave_policy)))) =
    [ Str (lit "Can leave carry over?") ] /\
  map disabled (suggestions (render (state (world leave_policy)))) = [ false ] /\
  let clicked := step (at_ms 5000) (ClickRelated 0) leave_policy in
  let submitted :=
    step (at_ms 5000) (Call_sendMessage (lit "Can leave carry over?")) leave_policy in
  map text (messages (state (world clicked))) =
    [ Str (lit "What is the leave policy?"); Str (lit "You get 20 days.");
      Str (lit "carry_over") ] /\
  map (fun r => body (snd r)) (requests (log (world clicked))) =
    [ JSON_stringify (Obj [ (lit "message", Str (lit "What is the leave policy?")) ]);
      JSON_stringify (Obj [ (lit "message", Str (lit "carry_over")) ]) ] /\
  map text (messages (state (world clicked))) <>
  map text (messages (state (world submitted))).
Proof.
  split; [reflexivity|]. split; [reflexivity|]. cbv zeta.
  split; [reflexivity|]. split; [reflexivity|].
  vm_compute. discriminate.
Qed.

(** *** Every turn of the page *)

Lemma appends_at_refl c l : appends_at c l l.
Proof. left. reflexivity. Qed.

Create HintDb turns.
#[local] Hint Resolve appends_at_refl : turns.
#[local] Hint Constructors sendMessage_task : turns.

Lemma orderly_sendMessage c w messageText :
  orderly c w (run c (sendMessage messageText) w).
Proof.
  destruct (AuthToken (localStorage w)) as [token|] eqn:H.
  - rewrite (run_sendMessage_token c w messageText H). split.
    + right. exists (user_message c messageText). split; [reflexivity|].
      left. reflexivity.
    + cbn. auto with turns.
  - rewrite (run_sendMessage_no_token c w messageText H).
    split; cbn; auto with turns.
Qed.

Lemma orderly_after_fetch c w outcome :
  orderly c w (run c (after_fetch outcome) w).
Proof.
  destruct outcome as [e|r].
  - rewrite run_after_fetch_rejected. split; cbn; auto with turns.
  - destruct (ok r) eqn:Hok.
    + rewrite (run_after_fetch_ok c w r Hok). split; cbn; auto with turns.
    + rewrite (run_after_fetch_not_ok c w r Hok). split; cbn; auto with turns.
Qed.

Lemma orderly_after_json c w settled :
  orderly c w (run c (after_json settled) w).
Proof.
  destruct settled as [e|data].
  - rewrite run_after_json_rejected. split; cbn; auto with turns.
  - destruct (get data f_message) as [e|m] eqn:Hm.
    + rewrite (run_after_json_throws c w data Hm). split; cbn; auto with turns.
    + destruct (get_inr data f_message f_reply Hm) as [rp Hrp].
      destruct (get_inr data f_message f_related Hm) as [rel Hrel].
      rewrite (run_after_json_data c w data Hm Hrp Hrel). split; cbn; [|exact I].
      right. eexists. split; [reflexivity|]. right. reflexivity.
Qed.

Lemma orderly_handleSubmit c w s :
  orderly c w (run c (handleSubmit s) w).
Proof.
  unfold handleSubmit. cbn [bind perform run do_eff].
  destruct (negb (truthy (Str (trim (inputMessage s)))) || isLoading s).
  - split; cbn; auto with turns.
  - exact (orderly_sendMessage c (emit DefaultPrevented w) (inputMessage s)).
Qed.

Lemma orderly_onKeyDown c w s k shift :
  orderly c w (run c (onKeyDown s k shift) w).
Proof.
  unfold onKeyDown. destruct (JS.eqb k (lit "Enter") && negb shift).
  - apply orderly_handleSubmit.
  - split; cbn; auto with turns.
Qed.

Lemma orderly_mount_guard c w : orderly c w (run c mount_guard w).
Proof.
  unfold mount_guard. cbn [bind perform run do_eff].
  destruct (getItem (lit "token") (localStorage w)) as [[|]|];
    split; cbn; auto with turns.
Qed.

Lemma set_nth_Forall {A : Type} (P : A -> Prop) i a l :
  Forall P l -> P a -> Forall P (set_nth i a l).
Proof.
  intros Hl Ha. revert i.
  induction Hl as [|x l Hx Hl IH]; intros [|i]; simpl; auto.
Qed.

Section Turn.

Variable c : Clock.
Variable sys : System.
Hypothesis Hparked : parked_by_sendMessage (tasks sys).

Local Abbreviation history s := (messages (state (world s))).

Lemma call_orderly p :
  orderly c (world sys) (run c p (world sys)) ->
  parked_by_sendMessage (tasks (call c p sys)) /\
  appends_at c (history sys) (history (call c p sys)).
Proof.
  unfold call, orderly.
  destruct (run c p (world sys)) as [w' r]. cbn [fst snd].
  intros [Happ Hr]. split; [|exact Happ]. cbn [tasks].
  destruct r; try exact Hparked.
  apply Forall_app. split; [exact Hparked|]. constructor; [exact Hr|constructor].
Qed.

Lemma resume_orderly i p :
  orderly c (world sys) (run c p (world sys)) ->
  parked_by_sendMessage (tasks (resume c i p sys)) /\
  appends_at c (history sys) (history (resume c i p sys)).
Proof.
  unfold resume, orderly.
  destruct (run c p (world sys)) as [w' r]. cbn [fst snd].
  intros [Happ Hr]. split; [|exact Happ]. cbn [tasks].
  apply set_nth_Forall; [exact Hparked|]. destruct r; cbn; auto.
Qed.

Lemma parked_nth i t :
  nth_error (tasks sys) i = Some (Some t) -> sendMessage_task t.
Proof.
  intros H. apply nth_error_In in H.
  exact (proj1 (Forall_forall _ _) Hparked _ H).
Qed.

(** Whatever the event, the handlers left parked are those of
    [sendMessage]; the history is emptied by Clear Chat and otherwise gets
    at most one message more. *)
Lemma step_orderly ev :
  parked_by_sendMessage (tasks (step c ev sys)) /\
  (if is_clear ev then history (step c ev sys) = []
   else appends_at c (history sys) (history (step c ev sys))).
Proof.
  destruct ev as [| v | | k shift | | | i | messageText | i r | i ];
    cbn [is_clear]; unfold step.
  - apply call_orderly, orderly_mount_guard.
  - apply call_orderly. split; cbn; auto with turns.
  - apply call_orderly, orderly_handleSubmit.
  - apply call_orderly, orderly_onKeyDown.
  - split; [exact Hparked | reflexivity].
  - apply call_orderly. split; cbn; auto with turns.
  - destruct (nth_error (suggestions (render (state (world sys)))) i)
      as [b|] eqn:Hb; [|split; auto with turns].
    destruct (disabled b); [split; auto with turns|].
    destruct (suggestions_from_related _ _ (nth_error_In _ _ Hb))
      as ((intent & question) & _ & ->).
    apply call_orderly. exact (orderly_sendMessage c (world sys) intent).
  - apply call_orderly, orderly_sendMessage.
  - destruct (nth_error (tasks sys) i) as [[t|]|] eqn:Ht;
      try solve [split; auto with turns].
    destruct (parked_nth i Ht); cbn [on_fetch].
    + apply resume_orderly, orderly_after_fetch.
    + split; auto with turns.
  - destruct (nth_error (tasks sys) i) as [[t|]|] eqn:Ht;
      try solve [split; auto with turns].
    destruct (parked_nth i Ht); cbn [on_json].
    + split; auto with turns.
    + apply resume_orderly, orderly_after_json.
Qed.

End Turn.

(** *** Runs of the page *)

Lemma steps_app t1 t2 sys : steps (t1 ++ t2) sys = steps t2 (steps t1 sys).
Proof.
  revert sys. induction t1 as [|[c ev] t1 IH]; intros sys; simpl; auto.
Qed.

Lemma steps_parked trace sys :
  parked_by_sendMessage (tasks sys) ->
  parked_by_sendMessage (tasks (steps trace sys)).
Proof.
  revert sys. induction trace as [|[c ev] trace IH]; intros sys H; simpl; auto.
  apply IH. exact (proj1 (@step_orderly c sys H ev)).
Qed.

Lemma appends_at_extends c before after :
  appends_at c before after -> exists added, after = before ++ added.
Proof.
  intros [->|(m & -> & _)]; [exists []; symmetry; apply app_nil_r | eauto].
Qed.

Lemma steps_extend trace sys :
  parked_by_sendMessage (tasks sys) ->
  forallb (fun ce => negb (is_clear (snd ce))) trace = true ->
  exists added,
    messages (state (world (steps trace sys))) =
    messages (state (world sys)) ++ added.
Proof.
  revert sys. induction trace as [|[c ev] trace IH]; intros sys Hp Hc; simpl.
  - exists []. symmetry. apply app_nil_r.
  - simpl in Hc. apply andb_prop in Hc. destruct Hc as [Hev Hc].
    destruct (@step_orderly c sys Hp ev) as [Hp' Hstep].
    destruct (is_clear ev); [discriminate|].
    destruct (appends_at_extends Hstep) as [a1 E1].
    destruct (IH _ Hp' Hc) as [a2 E2].
    exists (a1 ++ a2). rewrite E2, E1. symmetry. apply app_assoc.
Qed.

(** C3: through any turns of the page other than Clear Chat (the calls of
    [sendMessage], direct or from the form, the Enter key or a suggestion,
    and the settling of their requests with whatever outcome) the history
    keeps what it had and grows at its end only. *)
Theorem messages_append_only earlier later w :
  forallb (fun ce => negb (is_clear (snd ce))) later = true ->
  let before := messages (state (world (steps earlier (idle w)))) in
  let after := messages (state (world (steps (earlier ++ later) (idle w)))) in
  (exists added, after = before ++ added) /\ List.length before <= List.length after.
Proof.
  intros H. cbv zeta. rewrite steps_app.
  assert (Hp : parked_by_sendMessage (tasks (steps earlier (idle w))))
    by (apply steps_parked; constructor).
  destruct (steps_extend later _ Hp H) as [added E].
  split; [exists added; exact E|].
  rewrite E, length_app. lia.
Qed.

Lemma messages_append_only_witness :
  let before :=
    messages (state (world (steps (firstn 4 two_sends) (idle logged_in)))) in
  let after :=
    messages (state (world
      (steps (firstn 4 two_sends ++ skipn 4 two_sends) (idle logged_in)))) in
  (exists added, after = before ++ added) /\ List.length before <= List.length after.
Proof.
  exact (messages_append_only (firstn 4 two_sends) (skipn 4 two_sends)
           logged_in eq_refl).
Defined.

(** *** Ids *)

(** C9 as stated fails: when the reply is handled at 1200 ms and the next
    message is sent at 1201 ms, the bot message and the new user message
    both get the id "1201". *)
Lemma ids_collide :
  ids (steps quick_follow_up (idle logged_in)) =
    [ lit "1000"; lit "1201"; lit "1201" ] /\
  ~ NoDup (ids (steps quick_follow_up (idle logged_in))).
Proof.
  split; [reflexivity|].
  intros H. vm_compute in H.
  inversion H as [|x l Hx Hl]; subst.
  inversion Hl as [|y l' Hy Hl']; subst.
  apply Hy. left. reflexivity.
Qed.

(* ===================================================================== *)
(** ** Further properties of the page *)
(* ===================================================================== *)

(** *** The turns of the page, one by one *)

Lemma quietly_refl w : quietly w w.
Proof.
  repeat split. exists []. split; [symmetry; apply app_nil_r | reflexivity].
Qed.

Lemma quietly_emit w w' o :
  quietly w w' -> quiet o = true -> quietly w (emit o w').
Proof.
  intros (Hs & Hl & outs & Hlog & Hq) Ho. repeat split; cbn; auto.
  exists (outs ++ [o]). split.
  - rewrite Hlog. symmetry. apply app_assoc.
  - rewrite forallb_app, Hq. cbn. rewrite Ho. reflexivity.
Qed.

Section Kinds.

Variable c : Clock.

(** What a call of [sendMessage] does, after some quiet outputs. *)
Lemma call_sendMessage_turn ev ts w w0 messageText :
  quietly w w0 ->
  is_direct ev = true \/ isLoading (state w) = false ->
  turn c ev {| world := w; tasks := ts |}
    (call c (sendMessage messageText) {| world := w0; tasks := ts |}).
Proof.
  intros Hq Hev. unfold call. cbn [world tasks].
  destruct Hq as (Hs & Hl & Hlog).
  destruct (AuthToken (localStorage w0)) as [token|] eqn:H.
  - rewrite (run_sendMessage_token c w0 messageText H).
    apply (@turn_started c ev {| world := w; tasks := ts |} w0 token messageText);
      cbn [world]; [repeat split; assumption | congruence | exact Hev].
  - rewrite (run_sendMessage_no_token c w0 messageText H).
    apply (turn_quiet c ev {| world := w; tasks := ts |}).
    apply quietly_emit; [repeat split; assumption | reflexivity].
Qed.

Lemma handleSubmit_turn ev ts w :
  is_direct ev = false ->
  turn c ev {| world := w; tasks := ts |}
    (call c (handleSubmit (state w)) {| world := w; tasks := ts |}).
Proof.
  intros Hev. unfold call, handleSubmit. cbn [world tasks bind perform run do_eff].
  destruct (negb (truthy (Str (trim (inputMessage (state w))))) || isLoading (state w))
    eqn:G.
  - apply (turn_quiet c ev {| world := w; tasks := ts |}).
    apply quietly_emit; [apply quietly_refl | reflexivity].
  - apply orb_false_elim in G. destruct G as [_ G].
    apply (@call_sendMessage_turn ev ts w (emit DefaultPrevented w)).
    + apply quietly_emit; [apply quietly_refl | reflexivity].
    + right. exact G.
Qed.

(** Whatever the event, the turn is of one of the kinds of [turn]. *)
Lemma step_turn ev sys :
  parked_by_sendMessage (tasks sys) ->
  turn c ev sys (step c ev sys).
Proof.
  intros Hparked. destruct sys as [w ts]. cbn [tasks] in Hparked.
  destruct ev as [| v | | k shift | | | i | messageText | i r | i ]; unfold step;
    cbn [world tasks state].
  - unfold call, mount_guard. cbn [world tasks bind perform run do_eff].
    destruct (getItem (lit "token") (localStorage w)) as [[|]|];
      apply (turn_quiet c Mount {| world := w; tasks := ts |});
      try apply quietly_refl;
      (apply quietly_emit; [apply quietly_refl | reflexivity]).
  - apply (turn_typed c (Change v) {| world := w; tasks := ts |}).
  - apply handleSubmit_turn. reflexivity.
  - unfold onKeyDown. destruct (JS.eqb k (lit "Enter") && negb shift).
    + apply handleSubmit_turn. reflexivity.
    + apply (turn_quiet c (KeyDown k shift) {| world := w; tasks := ts |}).
      apply quietly_refl.
  - apply (@turn_cleared c ClickClear {| world := w; tasks := ts |}). reflexivity.
  - apply (turn_signed_out c ClickLogout {| world := w; tasks := ts |}).
  - destruct (nth_error (suggestions (render (state w))) i) as [b|] eqn:Hb.
    2:{ apply (turn_quiet c (ClickRelated i) {| world := w; tasks := ts |}).
        apply quietly_refl. }
    destruct (suggestions_from_related _ _ (nth_error_In _ _ Hb))
      as ((intent & question) & _ & ->).
    cbn [disabled suggestion onClick].
    destruct (isLoading (state w)) eqn:Hl.
    + apply (turn_quiet c (ClickRelated i) {| world := w; tasks := ts |}).
      apply quietly_refl.
    + apply call_sendMessage_turn; [apply quietly_refl | right; exact Hl].
  - apply call_sendMessage_turn; [apply quietly_refl | left; reflexivity].
  - destruct (nth_error ts i) as [[t|]|] eqn:Ht;
      try (apply (turn_quiet c (FetchSettled i r) {| world := w; tasks := ts |});
           apply quietly_refl).
    assert (Htask : sendMessage_task t)
      by (apply nth_error_In in Ht;
          exact (proj1 (Forall_forall _ _) Hparked _ Ht)).
    destruct Htask as [url init|r']; cbn [on_fetch].
    2:{ apply (turn_quiet c (FetchSettled i r) {| world := w; tasks := ts |}).
        apply quietly_refl. }
    unfold resume. cbn [world tasks].
    destruct r as [e|r].
    + rewrite run_after_fetch_rejected.
      exact (@turn_failed c (FetchSettled i (inl e)) {| world := w; tasks := ts |}
               i _ (describe e) Ht).
    + destruct (ok r) eqn:Hok.
      * rewrite (run_after_fetch_ok c w r Hok).
        exact (@turn_body c (FetchSettled i (inr r)) {| world := w; tasks := ts |}
                 i url init r Ht Hok).
      * rewrite (run_after_fetch_not_ok c w r Hok).
        exact (@turn_failed c (FetchSettled i (inr r)) {| world := w; tasks := ts |}
                 i _ Failed_to_send_message Ht).
  - destruct (nth_error ts i) as [[t|]|] eqn:Ht;
      try (apply (turn_quiet c (JsonSettled i) {| world := w; tasks := ts |});
           apply quietly_refl).
    assert (Htask : sendMessage_task t)
      by (apply nth_error_In in Ht;
          exact (proj1 (Forall_forall _ _) Hparked _ Ht)).
    destruct Htask as [url init|r]; cbn [on_json].
    { apply (turn_quiet c (JsonSettled i) {| world := w; tasks := ts |}).
      apply quietly_refl. }
    unfold resume. cbn [world tasks].
    destruct (json r) as [e|data] eqn:Hjson.
    + rewrite run_after_json_rejected.
      exact (@turn_failed c (JsonSettled i) {| world := w; tasks := ts |}
               i _ (describe e) Ht).
    + destruct (get data f_message) as [e|m] eqn:Hm.
      * rewrite (run_after_json_throws c w data Hm).
        exact (@turn_failed c (JsonSettled i) {| world := w; tasks := ts |}
                 i _ (describe e) Ht).
      * destruct (get_inr data f_message f_reply Hm) as [rp Hrp].
        destruct (get_inr data f_message f_related Hm) as [rel Hrel].
        rewrite (run_after_json_data c w data Hm Hrp Hrel).
        exact (@turn_replied c (JsonSettled i) {| world := w; tasks := ts |}
                 i _ _ rel Ht).
Qed.

End Kinds.

(** *** Ids and the clock *)

Lemma NoDup_toString stamps : NoDup stamps -> NoDup (map toString stamps).
Proof.
  induction 1 as [|z stamps Hz Hnd IH]; simpl; constructor; [|exact IH].
  intros Hin. apply in_map_iff in Hin. destruct Hin as (y & E & Hy).
  apply toString_inj in E. subst y. exact (Hz Hy).
Qed.

Lemma skipn_appended {A : Type} (l added : list A) :
  skipn (List.length l) (l ++ added) = added.
Proof. induction l as [|a l IH]; simpl; auto. Qed.

(** What a turn other than Clear Chat appends carries the stamp of the
    turn as its id. *)
Lemma turn_appended c ev sys sys' :
  turn c ev sys sys' ->
  is_clear ev = false ->
  exists added,
    messages (state (world sys')) = messages (state (world sys)) ++ added /\
    map id added = map toString (map (stamp c) added).
Proof.
  intros Hturn Hnc.
  destruct Hturn as [w' Hq | v | Hclear | | w0 token messageText Hq _ _
                    | i t description _ | i url init r _ _ | i t txt rel _];
    cbn [world state typed cleared signed_out failed emit replied
         in_flight started messages].
  - exists []. destruct Hq as (-> & _). split; [symmetry; apply app_nil_r|reflexivity].
  - exists []. split; [symmetry; apply app_nil_r|reflexivity].
  - subst ev. discriminate.
  - exists []. split; [symmetry; apply app_nil_r|reflexivity].
  - exists [ user_message c messageText ]. destruct Hq as (-> & _).
    split; reflexivity.
  - exists []. split; [symmetry; apply app_nil_r|reflexivity].
  - exists []. split; [symmetry; apply app_nil_r|reflexivity].
  - exists [ bot_message c txt ]. split; reflexivity.
Qed.

Lemma stamps_ids trace :
  forall sys known,
    parked_by_sendMessage (tasks sys) ->
    map id (messages (state (world sys))) = map toString known ->
    map id (messages (state (world (steps trace sys)))) =
    map toString (stamps known trace sys).
Proof.
  induction trace as [|[c ev] trace IH]; intros sys known Hp Hk; simpl; auto.
  destruct (@step_orderly c sys Hp ev) as [Hp' Hstep].
  apply (IH _ _ Hp').
  destruct (is_clear ev) eqn:Hc.
  - rewrite Hstep. reflexivity.
  - destruct (turn_appended (step_turn c ev sys Hp) Hc) as (added & E & Hid).
    rewrite E, skipn_appended, !map_app, Hk, Hid. reflexivity.
Qed.

(** C9, as the code has it: the id of a message is the decimal of the clock
    reading of the turn that appended it, plus one for a bot message.  On a
    page that starts with an empty history the ids in the history are
    pairwise distinct exactly when those stamps are. *)
Theorem ids_are_stamps trace w :
  messages (state w) = [] ->
  ids (steps trace (idle w)) = map toString (stamps [] trace (idle w)) /\
  (NoDup (ids (steps trace (idle w))) <-> NoDup (stamps [] trace (idle w))).
Proof.
  intros Hempty.
  assert (E : ids (steps trace (idle w)) =
              map toString (stamps [] trace (idle w))).
  { apply stamps_ids; [constructor|].
    cbn [idle world]. rewrite Hempty. reflexivity. }
  split; [exact E|]. rewrite E. split.
  - apply NoDup_map_inv.
  - apply NoDup_toString.
Qed.

Lemma ids_are_stamps_witness :
  (stamps [] two_sends (idle logged_in) = [ 1500; 1703; 2500 ]%Z /\
   ids (steps two_sends (idle logged_in)) =
     [ lit "1500"; lit "1703"; lit "2500" ] /\
   NoDup (ids (steps two_sends (idle logged_in)))) /\
  (stamps [] quick_follow_up (idle logged_in) = [ 1000; 1201; 1201 ]%Z /\
   ids (steps quick_follow_up (idle logged_in)) =
     [ lit "1000"; lit "1201"; lit "1201" ]).
Proof.
  destruct (ids_are_stamps two_sends logged_in eq_refl) as [E [_ Hnd]].
  destruct (ids_are_stamps quick_follow_up logged_in eq_refl) as [E' _].
  split; (split; [reflexivity|]).
  - split; [exact E|]. apply Hnd.
    repeat constructor; cbn; intuition discriminate.
  - exact E'.
Defined.

(** *** Strings *)

Lemma eqb_eq a b : JS.eqb a b = true -> a = b.
Proof.
  revert b. induction a as [|x a IH]; intros [|y b]; simpl; intros H;
    try discriminate; [reflexivity|].
  apply andb_prop in H. destruct H as [Hxy Hab].
  apply N.eqb_eq in Hxy. subst y. f_equal. exact (IH _ Hab).
Qed.

Lemma eqb_refl a : JS.eqb a a = true.
Proof.
  induction a as [|x a IH]; simpl; [reflexivity|].
  rewrite N.eqb_refl. exact IH.
Qed.

Lemma eqb_neq a b : a <> b -> JS.eqb a b = false.
Proof.
  intros H. destruct (JS.eqb a b) eqn:E; [|reflexivity].
  elim H. exact (eqb_eq _ _ E).
Qed.

Lemma existsb_rev {A : Type} (f : A -> bool) l :
  existsb f (rev l) = existsb f l.
Proof.
  induction l as [|a l IH]; simpl; [reflexivity|].
  rewrite existsb_app, IH. simpl. rewrite orb_false_r. apply orb_comm.
Qed.

Lemma trimStart_keeps s :
  existsb (fun ch => negb (is_whitespace ch)) s = true ->
  existsb (fun ch => negb (is_whitespace ch)) (trimStart s) = true.
Proof.
  induction s as [|ch s IH]; simpl; [discriminate|].
  destruct (is_whitespace ch) eqn:E; simpl.
  - exact IH.
  - rewrite E. reflexivity.
Qed.

(** A string with a character that is not white space does not trim to the
    empty string. *)
Lemma trim_keeps s :
  existsb (fun ch => negb (is_whitespace ch)) s = true -> trim s <> [].
Proof.
  intros H. unfold trim.
  assert (E : existsb (fun ch => negb (is_whitespace ch))
                (rev (trimStart (rev (trimStart s)))) = true).
  { rewrite existsb_rev. apply trimStart_keeps.
    rewrite existsb_rev. apply trimStart_keeps. exact H. }
  intros Hnil. rewrite Hnil in E. discriminate.
Qed.

(** *** A send that goes through, or meets a body it cannot read *)

(** X1: after a send that went through, the input is empty, [isLoading] is
    false, [error] is empty and [related] is [data.related] when that is
    truthy, [null] otherwise; the log got the request and one body read. *)
Theorem send_success_state c1 messageText c2 r c3 sys token data m rel :
  AuthToken (localStorage (world sys)) = Some token ->
  ok r = true ->
  json r = inr data ->
  get data f_message = inr m ->
  get data f_related = inr rel ->
  let sys' := send c1 messageText c2 (inr r) c3 sys in
  inputMessage (state (world sys')) = empty /\
  isLoading (state (world sys')) = false /\
  error (state (world sys')) = empty /\
  related (state (world sys')) = (if truthy rel then rel else Null) /\
  log (world sys') =
    log (world sys) ++
    [ Requested endpoint (request token messageText); BodyRead r ] /\
  tasks sys' = tasks sys ++ [ None ].
Proof.
  intros Htoken Hok Hjson Hm Hrel. cbv zeta.
  destruct (get_inr data f_message f_reply Hm) as [rp Hrp].
  rewrite (send_replied c1 c2 c3 messageText sys Htoken r Hok Hjson Hm Hrp Hrel).
  cbn [world replied state emit in_flight started log tasks
       inputMessage isLoading error related].
  repeat split. rewrite <- app_assoc. reflexivity.
Qed.

Lemma send_success_state_witness :
  let sys' := leave_policy in
  inputMessage (state (world sys')) = empty /\
  isLoading (state (world sys')) = false /\
  error (state (world sys')) = empty /\
  related (state (world sys')) =
    Obj [ (lit "carry_over", Str (lit "Can leave carry over?")) ] /\
  log (world sys') =
    [ Requested endpoint (request (lit "secret") (lit "What is the leave policy?"));
      BodyRead (respond 200 leave_policy_reply) ] /\
  tasks sys' = [ None ].
Proof.
  exact (send_success_state (at_ms 1000) (lit "What is the leave policy?")
           (at_ms 1200) (respond 200 leave_policy_reply) (at_ms 1201)
           (idle logged_in) eq_refl eq_refl eq_refl eq_refl eq_refl).
Defined.

(** X2: a reply with a 2xx status whose body parses to a value that has no
    properties to read ([null]) goes the way of a failure: the message of
    the [TypeError] lands in [error], no bot message is appended,
    [isLoading] is false, and the request is not repeated. *)
Theorem send_unreadable_data c1 messageText c2 r c3 sys token data e :
  AuthToken (localStorage (world sys)) = Some token ->
  ok r = true ->
  json r = inr data ->
  get data f_message = inl e ->
  let sys' := send c1 messageText c2 (inr r) c3 sys in
  (data = Null \/ data = Undefined) /\
  error (state (world sys')) = describe e /\
  messages (state (world sys')) =
    messages (state (world sys)) ++ [ user_message c1 messageText ] /\
  isLoading (state (world sys')) = false /\
  related (state (world sys')) = Null /\
  requests (log (world sys')) =
    requests (log (world sys)) ++ [ (endpoint, request token messageText) ].
Proof.
  intros Htoken Hok Hjson He. cbv zeta.
  rewrite (send_data_throws c1 c2 c3 messageText sys Htoken r Hok Hjson He).
  cbn [world failed state emit in_flight started log
       messages isLoading error related].
  split; [destruct data; try discriminate; auto|].
  repeat split. rewrite !requests_app. cbn [requests]. rewrite app_nil_r.
  reflexivity.
Qed.

Lemma send_unreadable_data_witness :
  let sys' := send (at_ms 1000) (lit "hi") (at_ms 1200) (inr (respond 200 Null))
                   (at_ms 1201) (idle logged_in) in
  (Null = Null \/ Null = Undefined) /\
  error (state (world sys')) =
    lit "Cannot read properties of null (reading 'message')" /\
  messages (state (world sys')) = [ user_message (at_ms 1000) (lit "hi") ] /\
  isLoading (state (world sys')) = false /\
  related (state (world sys')) = Null /\
  requests (log (world sys')) = [ (endpoint, request (lit "secret") (lit "hi")) ].
Proof.
  exact (send_unreadable_data (at_ms 1000) (lit "hi") (at_ms 1200)
           (respond 200 Null) (at_ms 1201) (idle logged_in)
           eq_refl eq_refl eq_refl eq_refl).
Defined.

(** *** Clear Chat during a send *)

Lemma run_handleClear c w : run c handleClear w = (cleared w, Finished).
Proof. reflexivity. Qed.

Section Clearing.

Variables c1 c2 c3 c4 : Clock.
Variable messageText : jsstring.
Variable sys : System.
Variable token : jsstring.
Hypothesis Htoken : AuthToken (localStorage (world sys)) = Some token.

Local Abbreviation w2 := (cleared (in_flight c1 token messageText (world sys))).

Lemma send_and_clear_fetch_settled outcome :
  steps [ (c1, Call_sendMessage messageText); (c2, ClickClear);
          (c3, FetchSettled (List.length (tasks sys)) outcome) ] sys =
  {| world := fst (run c3 (after_fetch outcome) w2);
     tasks := tasks sys ++ [ slot (snd (run c3 (after_fetch outcome) w2)) ] |}.
Proof.
  unfold steps. rewrite (send_call c1 messageText sys Htoken).
  unfold step, call. cbn [world tasks]. rewrite run_handleClear.
  cbn [world tasks]. rewrite nth_error_snoc. cbn [on_fetch].
  unfold resume. cbn [world tasks].
  destruct (run c3 (after_fetch outcome) w2) as [w' r]. cbn [fst snd].
  rewrite set_nth_snoc. reflexivity.
Qed.

Lemma send_and_clear_unfold outcome :
  send_and_clear c1 messageText c2 c3 outcome c4 sys =
  step c4 (JsonSettled (List.length (tasks sys)))
    (steps [ (c1, Call_sendMessage messageText); (c2, ClickClear);
             (c3, FetchSettled (List.length (tasks sys)) outcome) ] sys).
Proof. reflexivity. Qed.

Lemma send_and_clear_rejected e :
  send_and_clear c1 messageText c2 c3 (inl e) c4 sys =
  {| world := failed (describe e) w2; tasks := tasks sys ++ [ None ] |}.
Proof.
  rewrite send_and_clear_unfold, send_and_clear_fetch_settled,
    run_after_fetch_rejected.
  unfold step. cbn [tasks fst snd slot]. rewrite nth_error_snoc. reflexivity.
Qed.

Lemma send_and_clear_replied r data m rp rel :
  ok r = true -> json r = inr data ->
  get data f_message = inr m ->
  get data f_reply = inr rp ->
  get data f_related = inr rel ->
  send_and_clear c1 messageText c2 c3 (inr r) c4 sys =
  {| world := replied c4 (logical_or m (logical_or rp (Str placeholder))) rel
                (emit (BodyRead r) w2);
     tasks := tasks sys ++ [ None ] |}.
Proof.
  intros Hok Hjson Hm Hrp Hrel.
  rewrite send_and_clear_unfold, send_and_clear_fetch_settled,
    (run_after_fetch_ok c3 w2 r Hok).
  unfold step. cbn [tasks fst snd slot]. rewrite nth_error_snoc. cbn [on_json].
  unfold resume. cbn [world tasks]. rewrite Hjson.
  rewrite (run_after_json_data c4 (emit (BodyRead r) w2) data Hm Hrp Hrel).
  cbn [slot]. rewrite set_nth_snoc. reflexivity.
Qed.

End Clearing.

(** X3: Clear Chat during a send does not call the send off.  The user
    message goes with the rest of the history, the pending flag stays up,
    and when the reply comes it is appended all the same: the history then
    holds the bot message alone.  A failure that comes after the clearing
    sets [error] again. *)
Theorem clear_does_not_cancel c1 messageText c2 c3 c4 sys token :
  AuthToken (localStorage (world sys)) = Some token ->
  (let sys' := steps [ (c1, Call_sendMessage messageText); (c2, ClickClear) ] sys in
   messages (state (world sys')) = [] /\
   isLoading (state (world sys')) = true) /\
  (forall r data m rp,
     ok r = true -> json r = inr data ->
     get data f_message = inr m -> get data f_reply = inr rp ->
     let sys' := send_and_clear c1 messageText c2 c3 (inr r) c4 sys in
     messages (state (world sys')) =
       [ bot_message c4 (if truthy m then m
                         else if truthy rp then rp else Str placeholder) ] /\
     isLoading (state (world sys')) = false) /\
  (forall e,
     let sys' := send_and_clear c1 messageText c2 c3 (inl e) c4 sys in
     messages (state (world sys')) = [] /\
     error (state (world sys')) = describe e /\
     isLoading (state (world sys')) = false).
Proof.
  intros Htoken. split; [|split].
  - cbv zeta. unfold steps. rewrite (send_call c1 messageText sys Htoken).
    unfold step, call. cbn [world]. rewrite run_handleClear.
    split; reflexivity.
  - intros r data m rp Hok Hjson Hm Hrp. cbv zeta.
    destruct (get_inr data f_message f_related Hm) as [rel Hrel].
    rewrite (send_and_clear_replied c1 c2 c3 c4 messageText sys Htoken
               r Hok Hjson Hm Hrp Hrel).
    split; reflexivity.
  - intros e. cbv zeta.
    rewrite (send_and_clear_rejected c1 c2 c3 c4 messageText sys Htoken e).
    repeat split.
Qed.

Lemma clear_does_not_cancel_witness :
  map text (messages (state (world
    (send_and_clear (at_ms 1000) (lit "hi") (at_ms 1100) (at_ms 1200)
       (inr (respond 200 body_A_B)) (at_ms 1201) (idle logged_in))))) =
  [ Str (lit "A") ].
Proof.
  destruct (clear_does_not_cancel (at_ms 1000) (lit "hi") (at_ms 1100)
              (at_ms 1200) (at_ms 1201) (idle logged_in) eq_refl)
    as (_ & Hreply & _).
  exact (f_equal (map text)
           (proj1 (Hreply (respond 200 body_A_B) body_A_B _ _
                     eq_refl eq_refl eq_refl eq_refl))).
Defined.

(** *** The form *)

(** X4: when no send is pending and the input has a character that is not
    white space, the submit button is enabled and submitting calls
    [sendMessage] with the input as it was typed, white space around it
    included: that text is appended, posted, and the input is emptied. *)
Theorem submit_sends_input_as_typed c sys :
  isLoading (state (world sys)) = false ->
  existsb (fun ch => negb (is_whitespace ch))
          (inputMessage (state (world sys))) = true ->
  submit_disabled (render (state (world sys))) = false /\
  step c Submit sys =
    step c (Call_sendMessage (inputMessage (state (world sys))))
      {| world := emit DefaultPrevented (world sys); tasks := tasks sys |} /\
  forall token, AuthToken (localStorage (world sys)) = Some token ->
    messages (state (world (step c Submit sys))) =
      messages (state (world sys)) ++
      [ user_message c (inputMessage (state (world sys))) ] /\
    inputMessage (state (world (step c Submit sys))) = empty /\
    requests (log (world (step c Submit sys))) =
      requests (log (world sys)) ++
      [ (endpoint, request token (inputMessage (state (world sys)))) ].
Proof.
  intros Hl Hin.
  assert (G : negb (truthy (Str (trim (inputMessage (state (world sys))))))
              || isLoading (state (world sys)) = false).
  { rewrite Hl, orb_false_r. pose proof (trim_keeps _ Hin) as Hne.
    destruct (trim (inputMessage (state (world sys)))); [contradiction|reflexivity]. }
  assert (E : step c Submit sys =
    step c (Call_sendMessage (inputMessage (state (world sys))))
      {| world := emit DefaultPrevented (world sys); tasks := tasks sys |}).
  { unfold step, call, handleSubmit. cbn [world tasks bind perform run do_eff].
    rewrite G. reflexivity. }
  split; [|split; [exact E|]].
  - cbn [render submit_disabled]. rewrite orb_comm. exact G.
  - intros token Htoken. rewrite E. unfold step, call. cbn [world tasks].
    rewrite (run_sendMessage_token c (emit DefaultPrevented (world sys))
               (inputMessage (state (world sys))) Htoken).
    cbn [world in_flight emit started state messages inputMessage log].
    repeat split. rewrite !requests_app. cbn [requests]. rewrite app_nil_r.
    reflexivity.
Qed.

Lemma submit_sends_input_as_typed_witness :
  let sys' := step (at_ms 1000) Submit (typing (lit "  hi there ")) in
  map text (messages (state (world sys'))) = [ Str (lit "  hi there ") ] /\
  inputMessage (state (world sys')) = empty /\
  requests (log (world sys')) =
    [ (endpoint, request (lit "secret") (lit "  hi there ")) ].
Proof.
  destruct (submit_sends_input_as_typed (at_ms 1000) (typing (lit "  hi there "))
              eq_refl eq_refl) as (_ & _ & H).
  destruct (H (lit "secret") eq_refl) as (Hm & Hi & Hr).
  split; [exact (f_equal (map text) Hm)|]. split; [exact Hi | exact Hr].
Defined.

(** X5: a key other than Enter, and Enter with Shift held, is none of the
    page's business: nothing changes and the default is not prevented.
    Enter without Shift does what a submit does. *)
Theorem only_enter_submits c sys k shiftKey :
  k <> lit "Enter" \/ shiftKey = true ->
  step c (KeyDown k shiftKey) sys = sys /\
  step c (KeyDown (lit "Enter") false) sys = step c Submit sys.
Proof.
  intros H. split; [|reflexivity].
  assert (G : JS.eqb k (lit "Enter") && negb shiftKey = false).
  { destruct H as [H| ->]; [|apply andb_false_r].
    rewrite (eqb_neq H). reflexivity. }
  destruct sys as [w ts]. unfold step, onKeyDown. rewrite G. reflexivity.
Qed.

Lemma only_enter_submits_witness :
  step (at_ms 1000) (KeyDown (lit "Enter") true) (typing (lit "hi")) =
    typing (lit "hi") /\
  step (at_ms 1000) (KeyDown (lit "a") false) (typing (lit "hi")) =
    typing (lit "hi").
Proof.
  split.
  - exact (proj1 (only_enter_submits (at_ms 1000) (typing (lit "hi"))
                    (k := lit "Enter") (or_intror eq_refl))).
  - refine (proj1 (only_enter_submits (at_ms 1000) (typing (lit "hi"))
                     (k := lit "a") (shiftKey := false) (or_introl _))).
    discriminate.
Defined.

(** *** The guard at mount *)

(** X6: the mount effect leaves state, storage and parked handlers alone.
    It signals the login page exactly on the pages on which a call of
    [sendMessage] would do that and post nothing; on the others it does
    nothing, and a call of [sendMessage] posts. *)
Theorem mount_guard_agrees_with_sendMessage c sys c' messageText :
  let mounted := step c Mount sys in
  let called := step c' (Call_sendMessage messageText) sys in
  state (world mounted) = state (world sys) /\
  localStorage (world mounted) = localStorage (world sys) /\
  tasks mounted = tasks sys /\
  ((log (world mounted) = log (world sys) ++ [ Navigated (lit "/login") ] /\
    log (world called) = log (world sys) ++ [ Navigated (lit "/login") ])
   \/
   (log (world mounted) = log (world sys) /\
    exists token,
      log (world called) =
      log (world sys) ++ [ Requested endpoint (request token messageText) ])).
Proof.
  cbv zeta. unfold step, call, mount_guard.
  cbn [bind perform run do_eff].
  destruct (AuthToken (localStorage (world sys))) as [token|] eqn:H.
  - rewrite (run_sendMessage_token c' (world sys) messageText H).
    destruct (AuthToken_Some _ H) as [E Hne]. rewrite E.
    destruct token as [|t0 token]; [contradiction|].
    cbn. repeat split. right. split; [reflexivity|]. eexists. reflexivity.
  - rewrite (run_sendMessage_no_token c' (world sys) messageText H).
    destruct (AuthToken_None _ H) as [E|E]; rewrite E;
      cbn; repeat split; left; split; reflexivity.
Qed.

(** *** What holds through every run *)

Lemma steps_invariant (allowed : event -> bool) (Inv : System -> Prop) :
  (forall c ev sys sys',
     allowed ev = true -> Inv sys -> turn c ev sys sys' -> Inv sys') ->
  forall trace sys,
    parked_by_sendMessage (tasks sys) ->
    forallb (fun ce => allowed (snd ce)) trace = true ->
    Inv sys -> Inv (steps trace sys).
Proof.
  intros Hstep trace.
  induction trace as [|[c ev] trace IH]; intros sys Hp Hall Hinv; simpl; auto.
  simpl in Hall. apply andb_prop in Hall. destruct Hall as [Hev Hall].
  apply IH; [exact (proj1 (@step_orderly c sys Hp ev)) | exact Hall |].
  exact (Hstep c ev sys _ Hev Hinv (step_turn c ev sys Hp)).
Qed.

Lemma forallb_any_event trace :
  forallb (fun ce : Clock * event => any_event (snd ce)) trace = true.
Proof. induction trace as [|ce trace IH]; simpl; auto. Qed.

Lemma requests_quiet outs : forallb quiet outs = true -> requests outs = [].
Proof.
  induction outs as [|o outs IH]; simpl; [reflexivity|].
  intros H. apply andb_prop in H. destruct H as [Ho H].
  destruct o; try discriminate; exact (IH H).
Qed.

Lemma quietly_requests w w' :
  quietly w w' -> requests (log w') = requests (log w).
Proof.
  intros (_ & _ & outs & -> & Hq).
  rewrite requests_app, (requests_quiet _ Hq). apply app_nil_r.
Qed.

(** **** Storage *)

Lemma getItem_removeItem k st : getItem k (removeItem k st) = None.
Proof.
  induction st as [|[k' v] st IH]; simpl; [reflexivity|].
  destruct (JS.eqb k k') eqn:E; simpl; [exact IH|].
  rewrite E. exact IH.
Qed.

Lemma getItem_removeItem_other k t st :
  k <> t -> getItem k (removeItem t st) = getItem k st.
Proof.
  intros Hne. induction st as [|[k' v] st IH]; simpl; [reflexivity|].
  destruct (JS.eqb t k') eqn:E; simpl.
  - apply eqb_eq in E. subst k'. rewrite (eqb_neq Hne). exact IH.
  - rewrite IH. reflexivity.
Qed.

Lemma removeItem_twice k st : removeItem k (removeItem k st) = removeItem k st.
Proof.
  induction st as [|[k' v] st IH]; simpl; [reflexivity|].
  destruct (JS.eqb k k') eqn:E; simpl; [exact IH|].
  rewrite E. simpl. rewrite IH. reflexivity.
Qed.

Lemma AuthToken_removeItem st :
  AuthToken (removeItem (lit "token") st) = None.
Proof. unfold AuthToken. rewrite getItem_removeItem. reflexivity. Qed.

(** X7: logging out removes the token and nothing else from the storage,
    and from then on, whatever happens on the page, with whatever still in
    flight, no request is made. *)
Theorem logout_ends_posting before c after w k :
  k <> lit "token" ->
  let at_logout := steps before (idle w) in
  let later := steps (before ++ (c, ClickLogout) :: after) (idle w) in
  AuthToken (localStorage (world later)) = None /\
  getItem k (localStorage (world later)) =
    getItem k (localStorage (world at_logout)) /\
  requests (log (world later)) = requests (log (world at_logout)).
Proof.
  intros Hk. cbv zeta. rewrite steps_app. cbn [steps].
  set (sys0 := steps before (idle w)).
  assert (Hp0 : parked_by_sendMessage (tasks sys0))
    by (apply steps_parked; constructor).
  assert (Hinv :
    localStorage (world (steps after (step c ClickLogout sys0))) =
      removeItem (lit "token") (localStorage (world sys0)) /\
    requests (log (world (steps after (step c ClickLogout sys0)))) =
      requests (log (world sys0))).
  { apply (steps_invariant any_event
             (fun sys => localStorage (world sys) =
                           removeItem (lit "token") (localStorage (world sys0)) /\
                         requests (log (world sys)) = requests (log (world sys0)))).
    - intros c' ev sys sys' _ [Hst Hreq] Hturn.
      destruct Hturn as [w' Hq | v | _ | | w0 token messageText Hq Htoken _
                        | i t description _ | i url init r _ _ | i t txt rel _];
        cbn [world localStorage log typed cleared signed_out failed emit replied].
      + destruct Hq as (Hs & Hl & Hlog). split; [congruence|].
        rewrite (quietly_requests (conj Hs (conj Hl Hlog))). exact Hreq.
      + auto.
      + auto.
      + split; [rewrite Hst; apply removeItem_twice|].
        rewrite requests_app. cbn [requests]. rewrite app_nil_r. exact Hreq.
      + rewrite Hst, AuthToken_removeItem in Htoken. discriminate.
      + auto.
      + split; [exact Hst|].
        rewrite requests_app. cbn [requests]. rewrite app_nil_r. exact Hreq.
      + auto.
    - exact (proj1 (@step_orderly c sys0 Hp0 ClickLogout)).
    - apply forallb_any_event.
    - split; [reflexivity|]. cbn. rewrite requests_app. apply app_nil_r. }
  destruct Hinv as [Hst Hreq]. rewrite Hst.
  split; [apply AuthToken_removeItem|].
  split; [exact (getItem_removeItem_other _ Hk) | exact Hreq].
Qed.

Lemma logout_ends_posting_witness :
  let later := steps (firstn 9 session ++ (at_ms 2400, ClickLogout) :: skipn 8 session)
                     (idle logged_in) in
  AuthToken (localStorage (world later)) = None /\
  getItem (lit "theme") (localStorage (world later)) =
    getItem (lit "theme")
      (localStorage (world (steps (firstn 9 session) (idle logged_in)))) /\
  requests (log (world later)) =
    requests (log (world (steps (firstn 9 session) (idle logged_in)))).
Proof.
  refine (logout_ends_posting (firstn 9 session) (at_ms 2400) (skipn 8 session)
            logged_in (k := lit "theme") _).
  discriminate.
Defined.

(** **** One send at a time *)

Lemma in_flight_count_app l l' :
  in_flight_count (l ++ l') = in_flight_count l + in_flight_count l'.
Proof. unfold in_flight_count. rewrite filter_app. apply length_app. Qed.

Lemma in_flight_count_done i t l :
  nth_error l i = Some (Some t) ->
  S (in_flight_count (set_nth i None l)) = in_flight_count l.
Proof.
  revert i. induction l as [|x l IH]; intros [|i]; simpl; try discriminate.
  - intros H. injection H as ->. reflexivity.
  - intros H. specialize (IH _ H). unfold in_flight_count in *. simpl.
    destruct x; simpl; rewrite <- IH; reflexivity.
Qed.

Lemma in_flight_count_goes_on i t t' l :
  nth_error l i = Some (Some t) ->
  in_flight_count (set_nth i (Some t') l) = in_flight_count l.
Proof.
  revert i. induction l as [|x l IH]; intros [|i]; simpl; try discriminate.
  - intros H. injection H as ->. reflexivity.
  - intros H. specialize (IH _ H). unfold in_flight_count in *. simpl.
    destruct x; simpl; rewrite IH; reflexivity.
Qed.

Lemma no_related_no_suggestions s :
  related s = Null -> suggestions (render s) = [].
Proof.
  intros H. destruct (suggestions (render s)) as [|b l] eqn:E; [reflexivity|].
  destruct (suggestions_from_related s b) as (entry & Hin & _).
  - rewrite E. left. reflexivity.
  - rewrite H in Hin. contradiction.
Qed.

(** X8: on a page that is worked through its controls only (the form, the
    Enter key, the suggestions, Clear Chat, Logout) and starts with no send
    pending, there is never more than one send in flight, [isLoading] is
    true exactly while there is one, and as long as it is true no
    suggestion button is on the page. *)
Theorem pending_exclusive trace w :
  isLoading (state w) = false ->
  forallb (fun ce => via_the_page (snd ce)) trace = true ->
  let sys := steps trace (idle w) in
  in_flight_count (tasks sys) = (if isLoading (state (world sys)) then 1 else 0) /\
  (isLoading (state (world sys)) = true ->
   suggestions (render (state (world sys))) = []).
Proof.
  intros Hl Hvia. cbv zeta.
  assert (Hinv :
    in_flight_count (tasks (steps trace (idle w))) =
      (if isLoading (state (world (steps trace (idle w)))) then 1 else 0) /\
    (isLoading (state (world (steps trace (idle w)))) = true ->
     related (state (world (steps trace (idle w)))) = Null)).
  { apply (steps_invariant via_the_page
             (fun sys =>
                in_flight_count (tasks sys) =
                  (if isLoading (state (world sys)) then 1 else 0) /\
                (isLoading (state (world sys)) = true ->
                 related (state (world sys)) = Null))).
    - intros c ev sys sys' Hev [Hcount Hrel] Hturn.
      destruct Hturn as [w' Hq | v | _ | | w0 token messageText Hq Htoken Hstart
                        | i t description Ht | i url init r Ht _ | i t txt rel Ht];
        cbn [world tasks state typed cleared signed_out failed emit replied
             in_flight started isLoading related].
      + destruct Hq as (Hs & _). rewrite Hs. auto.
      + auto.
      + auto.
      + auto.
      + destruct Hstart as [Hd|Hidle].
        { unfold via_the_page in Hev. rewrite Hd in Hev. discriminate. }
        rewrite Hidle in Hcount.
        rewrite in_flight_count_app, Hcount. split; reflexivity.
      + pose proof (@in_flight_count_done i _ _ Ht) as E.
        destruct (isLoading (state (world sys))); split;
          try discriminate; lia.
      + rewrite (@in_flight_count_goes_on i _ _ _ Ht). auto.
      + pose proof (@in_flight_count_done i _ _ Ht) as E.
        destruct (isLoading (state (world sys))); split;
          try discriminate; lia.
    - constructor.
    - exact Hvia.
    - cbn. rewrite Hl. split; [reflexivity | discriminate]. }
  destruct Hinv as [Hcount Hrel]. split; [exact Hcount|].
  intros H. apply no_related_no_suggestions. exact (Hrel H).
Qed.

Lemma pending_exclusive_witness :
  let sys := steps (firstn 10 session) (idle logged_in) in
  isLoading (state (world sys)) = true /\
  in_flight_count (tasks sys) = 1 /\
  suggestions (render (state (world sys))) = [].
Proof.
  cbv zeta. split; [reflexivity|].
  destruct (pending_exclusive (firstn 10 session) logged_in eq_refl eq_refl)
    as [Hcount Hnone].
  split; [exact Hcount | exact (Hnone eq_refl)].
Defined.

(** **** What was posted *)

Lemma filter_is_user_snoc_user l c messageText :
  filter is_user (l ++ [ user_message c messageText ]) =
  filter is_user l ++ [ user_message c messageText ].
Proof. rewrite filter_app. reflexivity. Qed.

Lemma filter_is_user_snoc_bot l c txt :
  filter is_user (l ++ [ bot_message c txt ]) = filter is_user l.
Proof. rewrite filter_app. apply app_nil_r. Qed.

(** X9: on a page that starts with an empty history and an empty log and is
    not cleared, the requests made are, one for one and in order, the
    postings of the user messages in the history: each user message shown
    was posted with its text and the token, and nothing else was posted. *)
Theorem user_messages_are_posted trace w token :
  messages (state w) = [] ->
  log w = [] ->
  AuthToken (localStorage w) = Some token ->
  forallb (fun ce => not_clear (snd ce)) trace = true ->
  let sys := steps trace (idle w) in
  requests (log (world sys)) =
  map (posting token) (filter is_user (messages (state (world sys)))).
Proof.
  intros Hm Hlog Htoken Hnc. cbv zeta.
  apply (steps_invariant not_clear
           (fun sys =>
              (AuthToken (localStorage (world sys)) = Some token \/
               AuthToken (localStorage (world sys)) = None) /\
              requests (log (world sys)) =
                map (posting token) (filter is_user (messages (state (world sys))))))
    with (trace := trace) (sys := idle w).
  - intros c ev sys sys' Hev [Htok Hreq] Hturn.
    destruct Hturn as [w' Hq | v | Hclear | | w0 token' messageText Hq Htoken' _
                      | i t description _ | i url init r _ _ | i t txt rel _];
      cbn [world state typed cleared signed_out failed emit replied
           in_flight started messages localStorage log].
    + rewrite (quietly_requests Hq).
      destruct Hq as (Hs & Hst & _). rewrite Hs, Hst. auto.
    + auto.
    + subst ev. discriminate.
    + split; [right; apply AuthToken_removeItem|].
      rewrite requests_app. cbn [requests]. rewrite app_nil_r. exact Hreq.
    + assert (token' = token) as -> by (destruct Htok; congruence).
      rewrite requests_app, (quietly_requests Hq), Hreq.
      destruct Hq as (Hs & Hst & _). rewrite Hs, Hst.
      split; [exact Htok|].
      rewrite filter_is_user_snoc_user, map_app. reflexivity.
    + auto.
    + split; [exact Htok|].
      rewrite requests_app. cbn [requests]. rewrite app_nil_r. exact Hreq.
    + split; [exact Htok|]. rewrite filter_is_user_snoc_bot. exact Hreq.
  - constructor.
  - exact Hnc.
  - cbn [idle world]. rewrite Hm, Hlog. split; [left; exact Htoken | reflexivity].
Qed.

Lemma user_messages_are_posted_witness :
  let sys := steps (firstn 10 session) (idle logged_in) in
  map (fun r => body (snd r)) (requests (log (world sys))) =
    [ JSON_stringify (Obj [ (lit "message", Str (lit "hi")) ]);
      JSON_stringify (Obj [ (lit "message", Str (lit "carry_over")) ]) ] /\
  requests (log (world sys)) =
    map (posting (lit "secret")) (filter is_user (messages (state (world sys)))).
Proof.
  cbv zeta. split; [reflexivity|].
  exact (user_messages_are_posted (firstn 10 session) logged_in
           eq_refl eq_refl eq_refl eq_refl).
Defined.

(** *** Where the suggestions are shown *)

Lemma last_bot_from_ge k l j : last_bot_from k l = Some j -> k <= j.
Proof.
  revert k. induction l as [|m l IH]; intros k; simpl; [discriminate|].
  destruct (last_bot_from (S k) l) as [j'|] eqn:E.
  - intros H. injection H as <-. specialize (IH _ E). lia.
  - destruct (is_bot m); [|discriminate]. intros H. injection H as <-. lia.
Qed.

Lemma last_bot_from_None k l :
  last_bot_from k l = None <-> existsb is_bot l = false.
Proof.
  revert k. induction l as [|m l IH]; intros k; simpl; [tauto|].
  destruct (last_bot_from (S k) l) as [j|] eqn:E.
  - split; [discriminate|]. intros H. apply orb_false_elim in H.
    destruct H as [_ H]. apply (IH (S k)) in H. congruence.
  - apply (IH (S k)) in E. rewrite E, orb_false_r.
    destruct (is_bot m); split; congruence.
Qed.

(** The last element of the filtered list of the source is at the position
    [last_bot_from] computes. *)
Lemma rev_filter_numbered k l :
  match rev (filter (fun im => is_bot (snd im)) (numbered k l)) with
  | (j, _) :: _ => Some j
  | [] => None
  end = last_bot_from k l.
Proof.
  revert k. induction l as [|m l IH]; intros k; simpl; [reflexivity|].
  specialize (IH (S k)).
  destruct (is_bot m); simpl.
  - destruct (rev (filter (fun im => is_bot (snd im)) (numbered (S k) l)))
      as [|[j m'] rest]; simpl; rewrite <- IH; reflexivity.
  - rewrite <- IH.
    destruct (rev (filter (fun im => is_bot (snd im)) (numbered (S k) l)))
      as [|[j m'] rest]; reflexivity.
Qed.

Lemma isLastBot_spec msgs idx message :
  isLastBot msgs idx message =
  is_bot message &&
  match last_bot_from 0 msgs with
  | Some j => Nat.eqb j idx
  | None => false
  end.
Proof.
  unfold isLastBot. rewrite <- (rev_filter_numbered 0 msgs).
  destruct (rev (filter (fun im => is_bot (snd im)) (numbered 0 msgs)))
    as [|[j m'] rest]; reflexivity.
Qed.

Lemma nth_error_numbered {A : Type} k (l : list A) i :
  nth_error (numbered k l) i =
  match nth_error l i with Some a => Some (k + i, a) | None => None end.
Proof.
  revert k i. induction l as [|a l IH]; intros k [|i]; simpl; try reflexivity.
  - rewrite Nat.add_0_r. reflexivity.
  - rewrite IH. replace (S k + i) with (k + S i) by lia. reflexivity.
Qed.

(** The last bot message is a bot message and none comes after it. *)
Lemma last_bot_from_spec k l j :
  last_bot_from k l = Some j ->
  exists m, nth_error l (j - k) = Some m /\ is_bot m = true /\
            existsb is_bot (skipn (S (j - k)) l) = false.
Proof.
  revert k. induction l as [|m l IH]; intros k; simpl; [discriminate|].
  destruct (last_bot_from (S k) l) as [j'|] eqn:E.
  - intros H. injection H as <-.
    pose proof (last_bot_from_ge _ _ E) as Hge.
    destruct (IH _ E) as (m' & Hn & Hb & Hrest).
    replace (j' - k) with (S (j' - S k)) by lia. simpl. eauto.
  - destruct (is_bot m) eqn:Hb; [|discriminate].
    intros H. injection H as <-. rewrite Nat.sub_diag. simpl.
    exists m. repeat split; auto. apply (last_bot_from_None (S k)). exact E.
Qed.

Section Shown.

Variable A : Type.
Variable L : list A.

Lemma concat_none k l (g : nat * Message -> bool) :
  (forall i m, k <= i -> g (i, m) = false) ->
  List.concat (map (fun im => if g im then L else []) (numbered k l)) = [].
Proof.
  revert k. induction l as [|m l IH]; intros k Hg; simpl; [reflexivity|].
  rewrite (Hg k m (le_n k)). simpl. apply IH.
  intros i m' Hi. apply Hg. lia.
Qed.

Lemma concat_last_bot k l j :
  last_bot_from k l = Some j ->
  List.concat (map (fun im => if is_bot (snd im) && Nat.eqb j (fst im) then L else [])
                   (numbered k l)) = L.
Proof.
  revert k. induction l as [|m l IH]; intros k; simpl; [discriminate|].
  destruct (last_bot_from (S k) l) as [j'|] eqn:E.
  - intros H. injection H as <-.
    pose proof (last_bot_from_ge _ _ E) as Hge.
    replace (Nat.eqb j' k) with false by (symmetry; apply Nat.eqb_neq; lia).
    rewrite andb_false_r. simpl. exact (IH _ E).
  - destruct (is_bot m) eqn:Hb; [|discriminate].
    intros H. injection H as <-. rewrite Nat.eqb_refl. simpl.
    rewrite (@concat_none (S k) l
               (fun im => is_bot (snd im) && Nat.eqb k (fst im))).
    + apply app_nil_r.
    + intros i m' Hi. simpl.
      replace (Nat.eqb k i) with false by (symmetry; apply Nat.eqb_neq; lia).
      apply andb_false_r.
Qed.

End Shown.

Lemma suggestions_of_render s :
  suggestions (render s) =
  if existsb is_bot (messages s) && truthy (related s)
  then map (suggestion s) (entries (related s))
  else [].
Proof.
  unfold suggestions, render. cbn [bubbles]. rewrite map_map.
  destruct (truthy (related s)) eqn:Hrel.
  - rewrite andb_true_r.
    destruct (last_bot_from 0 (messages s)) as [j|] eqn:E.
    + assert (Hex : existsb is_bot (messages s) = true).
      { destruct (existsb is_bot (messages s)) eqn:Hex; [reflexivity|].
        apply (last_bot_from_None 0) in Hex. congruence. }
      rewrite Hex.
      etransitivity;
        [|exact (@concat_last_bot _ (map (suggestion s) (entries (related s))) 0
                   (messages s) j E)].
      f_equal. apply map_ext. intros [idx message]. cbn [suggested fst snd].
      rewrite isLastBot_spec, E, andb_true_r. reflexivity.
    + rewrite (proj1 (last_bot_from_None 0 (messages s)) E).
      etransitivity;
        [|exact (@concat_none _ (map (suggestion s) (entries (related s))) 0
                   (messages s) (fun _ => false) (fun _ _ _ => eq_refl))].
      f_equal. apply map_ext. intros [idx message]. cbn [suggested].
      rewrite isLastBot_spec, E, !andb_false_r. reflexivity.
  - rewrite andb_false_r.
    etransitivity;
      [|exact (@concat_none _ (map (suggestion s) (entries (related s))) 0
                 (messages s) (fun _ => false) (fun _ _ _ => eq_refl))].
    f_equal. apply map_ext. intros [idx message]. cbn [suggested].
    rewrite andb_false_r. reflexivity.
Qed.

(** X10: when the page is up, that is when no message text and no question
    is a plain object, which React refuses as a child, then however many
    bot messages there are the suggestion buttons are on the page once:
    one button per entry of [related], in the order of the entries, when
    there is a bot message and [related] is truthy, and none otherwise. *)
Theorem suggestions_shown_once s v :
  page s = Some v ->
  suggestions v =
  if existsb is_bot (messages s) && truthy (related s)
  then map (suggestion s) (entries (related s))
  else [].
Proof.
  unfold page. destruct (displayable s); [|discriminate].
  intros E. injection E as <-. apply suggestions_of_render.
Qed.

Lemma suggestions_shown_once_witness :
  exists v,
    page (state (world leave_policy)) = Some v /\
    map key (suggestions v) = [ lit "carry_over" ].
Proof.
  exists (render (state (world leave_policy))).
  split; [reflexivity|].
  exact (f_equal (map key)
           (suggestions_shown_once (state (world leave_policy)) eq_refl)).
Defined.

(** X11: the bubble that carries the suggestions is the one of the last bot
    message: its message is from the bot and no message after it is. *)
Theorem suggestions_under_last_bot s idx b :
  nth_error (bubbles (render s)) idx = Some b ->
  suggested b <> [] ->
  nth_error (messages s) idx = Some (shown b) /\
  is_bot (shown b) = true /\
  existsb is_bot (skipn (S idx) (messages s)) = false.
Proof.
  unfold render. cbn [bubbles]. intros Hnth Hne.
  rewrite nth_error_map, nth_error_numbered in Hnth.
  destruct (nth_error (messages s) idx) as [message|] eqn:Hm; [|discriminate].
  cbn in Hnth. injection Hnth as <-. cbn [shown suggested] in *.
  split; [reflexivity|].
  rewrite isLastBot_spec in Hne.
  destruct (is_bot message) eqn:Hb; [|elim Hne; reflexivity].
  split; [reflexivity|].
  destruct (last_bot_from 0 (messages s)) as [j|] eqn:E; [|elim Hne; reflexivity].
  destruct (Nat.eqb j idx) eqn:Hj; [|elim Hne; reflexivity].
  apply Nat.eqb_eq in Hj. subst j.
  destruct (last_bot_from_spec _ _ E) as (m' & _ & _ & Hrest).
  rewrite Nat.sub_0_r in Hrest. exact Hrest.
Qed.

Lemma suggestions_under_last_bot_witness :
  let s := state (world (steps (firstn 8 session) (idle logged_in))) in
  map (fun b => List.length (suggested b)) (bubbles (render s)) = [ 0; 1 ] /\
  existsb is_bot (skipn 2 (messages s)) = false.
Proof.
  cbv zeta. split; [reflexivity|].
  refine (proj2 (proj2 (suggestions_under_last_bot
    (state (world (steps (firstn 8 session) (idle logged_in)))) 1 eq_refl _))).
  discriminate.
Defined.

(** X12: after a send that went through, the page is up exactly when no
    message text in the history, the reply's included, is a plain object
    and, for a truthy [data.related], no question in it is.  It then shows
    one enabled button per entry of a truthy [data.related], labelled with
    the question and wired to the intent key, and none for a falsy or
    missing one. *)
Theorem suggestions_after_reply c1 messageText c2 r c3 sys token data m rp rel :
  AuthToken (localStorage (world sys)) = Some token ->
  ok r = true ->
  json r = inr data ->
  get data f_message = inr m ->
  get data f_reply = inr rp ->
  get data f_related = inr rel ->
  let s' := state (world (send c1 messageText c2 (inr r) c3 sys)) in
  let shown_text :=
    if truthy m then m else if truthy rp then rp else Str placeholder in
  let buttons :=
    if truthy rel
    then map (fun entry =>
                {| key := fst entry; label := snd entry; disabled := false;
                   onClick := handleRelatedClick (fst entry) |}) (entries rel)
    else [] in
  displayable s' =
    forallb (fun m => renderable (text m)) (messages (state (world sys))) &&
    renderable shown_text &&
    forallb (fun b => renderable (label b)) buttons /\
  forall v, page s' = Some v -> suggestions v = buttons.
Proof.
  intros Htoken Hok Hjson Hm Hrp Hrel. cbv zeta.
  assert (Hs : suggestions (render
                 (state (world (send c1 messageText c2 (inr r) c3 sys)))) =
               if truthy rel
               then map (fun entry =>
                           {| key := fst entry; label := snd entry;
                              disabled := false;
                              onClick := handleRelatedClick (fst entry) |})
                        (entries rel)
               else []).
  { rewrite suggestions_of_render.
    rewrite (send_replied c1 c2 c3 messageText sys Htoken r Hok Hjson Hm Hrp Hrel).
    cbn [world replied state messages related isLoading].
    rewrite existsb_app. cbn [existsb is_bot bot_message sender].
    rewrite orb_true_r. cbn [andb].
    unfold logical_or. destruct (truthy rel) eqn:Ht; [|reflexivity].
    rewrite Ht. apply map_ext. intros [intent question]. reflexivity. }
  split.
  - unfold displayable. rewrite Hs.
    rewrite (send_replied c1 c2 c3 messageText sys Htoken r Hok Hjson Hm Hrp Hrel).
    cbn [world replied state messages emit in_flight started].
    rewrite !forallb_app. cbn [forallb text user_message bot_message renderable].
    unfold logical_or. rewrite !andb_true_r. reflexivity.
  - intros v. unfold page.
    destruct (displayable (state (world (send c1 messageText c2 (inr r) c3 sys))));
      [|discriminate].
    intros E. injection E as <-. exact Hs.
Qed.

Lemma suggestions_after_reply_witness :
  (exists v,
     page (state (world leave_policy)) = Some v /\
     suggestions v =
     [ {| key := lit "carry_over"; label := Str (lit "Can leave carry over?");
          disabled := false; onClick := handleRelatedClick (lit "carry_over") |} ]) /\
  page (state (world
    (send (at_ms 1000) (lit "hi") (at_ms 1200)
          (inr (respond 200 object_question_reply)) (at_ms 1201)
          (idle logged_in)))) = None.
Proof.
  split.
  - exists (render (state (world leave_policy))).
    split; [reflexivity|].
    exact (proj2 (suggestions_after_reply (at_ms 1000)
             (lit "What is the leave policy?")
             (at_ms 1200) (respond 200 leave_policy_reply) (at_ms 1201)
             (idle logged_in) eq_refl eq_refl eq_refl eq_refl eq_refl eq_refl)
             (render (state (world leave_policy))) eq_refl).
  - unfold page.
    rewrite (proj1 (suggestions_after_reply (at_ms 1000) (lit "hi")
               (at_ms 1200) (respond 200 object_question_reply) (at_ms 1201)
               (idle logged_in) eq_refl eq_refl eq_refl eq_refl eq_refl eq_refl)).
    reflexivity.
Defined.

(** *** The earlier page and the later one *)

Section PlainTurns.

Variable c : Clock.
Variable w : World.

Lemma plain_run_guard s :
  negb (truthy (Str (trim (inputMessage s)))) || isLoading s = true ->
  run c (Plain.handleSubmit s) w = (emit DefaultPrevented w, Finished).
Proof.
  intros G. unfold Plain.handleSubmit. cbn [bind perform run do_eff].
  rewrite G. reflexivity.
Qed.

Lemma plain_run_no_token s :
  negb (truthy (Str (trim (inputMessage s)))) || isLoading s = false ->
  AuthToken (localStorage w) = None ->
  run c (Plain.handleSubmit s) w =
  (emit (Navigated (lit "/login")) (emit DefaultPrevented w), Finished).
Proof.
  intros G H. unfold Plain.handleSubmit. cbn [bind perform run do_eff].
  rewrite G. cbn [bind perform run do_eff emit localStorage].
  destruct (AuthToken_None _ H) as [E|E]; rewrite E; reflexivity.
Qed.

Lemma plain_run_token s token :
  negb (truthy (Str (trim (inputMessage s)))) || isLoading s = false ->
  AuthToken (localStorage w) = Some token ->
  run c (Plain.handleSubmit s) w =
  (Plain.started c token (inputMessage s) (emit DefaultPrevented w),
   Suspended (Pending (fetch endpoint (request token (inputMessage s)))
                      Plain.after_fetch)).
Proof.
  intros G H. destruct (AuthToken_Some _ H) as [E Hne].
  unfold Plain.handleSubmit. cbn [bind perform run do_eff].
  rewrite G. cbn [bind perform run do_eff emit localStorage]. rewrite E.
  destruct token as [|t0 token]; [contradiction|]. reflexivity.
Qed.

Lemma plain_run_after_fetch_rejected e :
  run c (Plain.after_fetch (inl e)) w = (failed (describe e) w, Finished).
Proof. reflexivity. Qed.

Lemma plain_run_after_fetch_not_ok r :
  ok r = false ->
  run c (Plain.after_fetch (inr r)) w = (failed Failed_to_send_message w, Finished).
Proof.
  intros H.
  unfold Plain.after_fetch, try_catch_finally, try_finally, Plain.on_response.
  cbn [eval bind]. rewrite H. reflexivity.
Qed.

Lemma plain_run_after_fetch_ok r :
  ok r = true ->
  run c (Plain.after_fetch (inr r)) w =
  (emit (BodyRead r) w, Suspended (Pending (response_json r) Plain.after_json)).
Proof.
  intros H.
  unfold Plain.after_fetch, try_catch_finally, try_finally, Plain.on_response.
  cbn [eval bind]. rewrite H. reflexivity.
Qed.

Lemma plain_run_after_json_rejected e :
  run c (Plain.after_json (inl e)) w = (failed (describe e) w, Finished).
Proof. reflexivity. Qed.

Lemma plain_run_after_json_throws data e :
  get data f_message = inl e ->
  run c (Plain.after_json (inr data)) w = (failed (describe e) w, Finished).
Proof.
  intros H.
  unfold Plain.after_json, try_catch_finally, try_finally, Plain.on_data, reply_text.
  cbn [eval bind perform try_catch]. rewrite H. reflexivity.
Qed.

Lemma plain_run_after_json_data data m rp :
  get data f_message = inr m ->
  get data f_reply = inr rp ->
  run c (Plain.after_json (inr data)) w =
  (Plain.replied c (logical_or m (logical_or rp (Str placeholder))) w, Finished).
Proof.
  intros Hm Hr.
  unfold Plain.after_json, try_catch_finally, try_finally, Plain.on_data, reply_text.
  cbn [eval bind perform try_catch]. rewrite Hm. cbn [eval bind try_catch].
  unfold logical_or. destruct (truthy m).
  - reflexivity.
  - cbn [eval bind perform try_catch run do_eff]. rewrite Hr. reflexivity.
Qed.

End PlainTurns.

Lemma agree_emit o w w' : agree w w' -> agree (emit o w) (emit o w').
Proof.
  intros (Hi & Hm & Hl & He & Hs & Hlog). repeat split; cbn; congruence.
Qed.

Lemma agree_failed d w w' : agree w w' -> agree (failed d w) (failed d w').
Proof.
  intros (Hi & Hm & Hl & He & Hs & Hlog). repeat split; cbn; congruence.
Qed.

Lemma alike_nth ts ts' i t :
  Forall2 alike ts ts' ->
  nth_error ts i = Some t ->
  exists t', nth_error ts' i = Some t' /\ alike t t'.
Proof.
  intros H. revert i. induction H as [|x y l l' Hxy H IH]; intros [|i]; simpl;
    try discriminate.
  - intros E. injection E as <-. eauto.
  - apply IH.
Qed.

Lemma alike_nth_None ts ts' i :
  Forall2 alike ts ts' ->
  nth_error ts i = None -> nth_error ts' i = None.
Proof.
  intros H. revert i. induction H as [|x y l l' Hxy H IH]; intros [|i]; simpl;
    try discriminate; auto.
Qed.

Lemma alike_set_nth ts ts' i t t' :
  Forall2 alike ts ts' -> alike t t' ->
  Forall2 alike (set_nth i t ts) (set_nth i t' ts').
Proof.
  intros H Ht. revert i.
  induction H as [|x y l l' Hxy H IH]; intros [|i]; simpl; constructor; auto.
Qed.

Lemma in_step_step c ev sys sys' :
  Plain.has ev = true ->
  in_step sys sys' ->
  in_step (step c ev sys) (Plain.step c ev sys').
Proof.
  intros Hev [Hw Ht]. destruct sys as [w ts], sys' as [w' ts'].
  cbn [world tasks] in *.
  pose proof Hw as (Hi & Hm & Hl & He & Hs & Hlog).
  destruct ev as [| v | | k shift | | | i | messageText | i r | i ];
    try discriminate Hev; unfold step, Plain.step; cbn [world tasks state].
  - (* Mount *)
    unfold call, mount_guard. cbn [world tasks bind perform run do_eff].
    rewrite <- Hs.
    destruct (getItem (lit "token") (localStorage w)) as [[|]|];
      cbn [run]; split; cbn [world tasks]; auto; apply agree_emit; exact Hw.
  - (* Change *)
    split; cbn [world tasks]; [|exact Ht].
    repeat split; cbn; congruence.
  - (* Submit *)
    unfold call. cbn [world tasks].
    destruct (negb (truthy (Str (trim (inputMessage (state w)))))
              || isLoading (state w)) eqn:G.
    + assert (G' : negb (truthy (Str (trim (inputMessage (state w')))))
                   || isLoading (state w') = true) by (rewrite <- Hi, <- Hl; exact G).
      rewrite (plain_run_guard c w' (state w') G').
      unfold handleSubmit. cbn [bind perform run do_eff]. rewrite G.
      split; cbn [world tasks run]; [apply agree_emit; exact Hw | exact Ht].
    + assert (G' : negb (truthy (Str (trim (inputMessage (state w')))))
                   || isLoading (state w') = false) by (rewrite <- Hi, <- Hl; exact G).
      unfold handleSubmit. cbn [bind perform run do_eff]. rewrite G.
      destruct (AuthToken (localStorage w)) as [token|] eqn:H.
      * rewrite (run_sendMessage_token c (emit DefaultPrevented w)
                   (inputMessage (state w)) H).
        rewrite Hs in H. rewrite (plain_run_token c w' (state w') G' H).
        split; cbn [world tasks].
        { repeat split; cbn; congruence. }
        apply Forall2_app; [exact Ht|]. rewrite Hi.
        constructor; constructor.
      * rewrite (run_sendMessage_no_token c (emit DefaultPrevented w)
                   (inputMessage (state w)) H).
        rewrite Hs in H. rewrite (plain_run_no_token c w' (state w') G' H).
        split; cbn [world tasks]; [|exact Ht].
        apply agree_emit, agree_emit. exact Hw.
  - (* Clear Chat *)
    split; cbn [world tasks]; [|exact Ht].
    repeat split; cbn; congruence.
  - (* Logout *)
    split; cbn [world tasks]; [|exact Ht].
    repeat split; cbn; congruence.
  - (* the fetch settles *)
    destruct (nth_error ts i) as [t|] eqn:E.
    2:{ rewrite (alike_nth_None i Ht E). split; assumption. }
    destruct (alike_nth i Ht E) as (t' & E' & Htt'). rewrite E'.
    destruct Htt' as [|url init|r']; cbn [on_fetch]; try (split; assumption).
    unfold resume. cbn [world tasks].
    destruct r as [e|r].
    + rewrite run_after_fetch_rejected, plain_run_after_fetch_rejected.
      split; cbn [world tasks slot];
        [apply agree_failed; exact Hw | apply alike_set_nth; [exact Ht|constructor]].
    + destruct (ok r) eqn:Hok.
      * rewrite (run_after_fetch_ok c w r Hok),
          (plain_run_after_fetch_ok c w' r Hok).
        split; cbn [world tasks slot];
          [apply agree_emit; exact Hw | apply alike_set_nth; [exact Ht|constructor]].
      * rewrite (run_after_fetch_not_ok c w r Hok),
          (plain_run_after_fetch_not_ok c w' r Hok).
        split; cbn [world tasks slot];
          [apply agree_failed; exact Hw | apply alike_set_nth; [exact Ht|constructor]].
  - (* the body read settles *)
    destruct (nth_error ts i) as [t|] eqn:E.
    2:{ rewrite (alike_nth_None i Ht E). split; assumption. }
    destruct (alike_nth i Ht E) as (t' & E' & Htt'). rewrite E'.
    destruct Htt' as [|url init|r]; cbn [on_json]; try (split; assumption).
    unfold resume. cbn [world tasks].
    destruct (json r) as [e|data] eqn:Hjson.
    + rewrite run_after_json_rejected, plain_run_after_json_rejected.
      split; cbn [world tasks slot];
        [apply agree_failed; exact Hw | apply alike_set_nth; [exact Ht|constructor]].
    + destruct (get data f_message) as [e|m] eqn:Hmsg.
      * rewrite (run_after_json_throws c w data Hmsg),
          (plain_run_after_json_throws c w' data Hmsg).
        split; cbn [world tasks slot];
          [apply agree_failed; exact Hw | apply alike_set_nth; [exact Ht|constructor]].
      * destruct (get_inr data f_message f_reply Hmsg) as [rp Hrp].
        destruct (get_inr data f_message f_related Hmsg) as [rel Hrel].
        rewrite (run_after_json_data c w data Hmsg Hrp Hrel),
          (plain_run_after_json_data c w' data Hmsg Hrp).
        split; cbn [world tasks slot];
          [|apply alike_set_nth; [exact Ht|constructor]].
        repeat split; cbn; congruence.
Qed.

Lemma alike_nth_r ts ts' i t' :
  Forall2 alike ts ts' ->
  nth_error ts' i = Some (Some t') ->
  (exists url init, t' = Pending (fetch url init) Plain.after_fetch) \/
  (exists r, t' = Pending (response_json r) Plain.after_json).
Proof.
  intros H. revert i. induction H as [|x y l l' Hxy H IH]; intros [|i]; simpl;
    try discriminate.
  - intros E. injection E as ->. inversion Hxy; subst; eauto.
  - apply IH.
Qed.

(** The earlier page never writes [related]. *)
Lemma plain_keeps_related c ev ts sys' :
  Forall2 alike ts (tasks sys') ->
  related (state (world (Plain.step c ev sys'))) = related (state (world sys')).
Proof.
  intros Ht. destruct sys' as [w' ts']. cbn [world tasks] in *.
  destruct ev as [| v | | k shift | | | i | messageText | i r | i ];
    unfold Plain.step; cbn [world tasks state]; try reflexivity.
  - unfold call, mount_guard. cbn [world tasks bind perform run do_eff].
    destruct (getItem (lit "token") (localStorage w')) as [[|]|]; reflexivity.
  - unfold call. cbn [world tasks].
    destruct (negb (truthy (Str (trim (inputMessage (state w')))))
              || isLoading (state w')) eqn:G.
    + rewrite (plain_run_guard c w' (state w') G). reflexivity.
    + destruct (AuthToken (localStorage w')) as [token|] eqn:H.
      * rewrite (plain_run_token c w' (state w') G H). reflexivity.
      * rewrite (plain_run_no_token c w' (state w') G H). reflexivity.
  - destruct (nth_error ts' i) as [[t'|]|] eqn:E; try reflexivity.
    destruct (alike_nth_r i Ht E) as [(url & init & ->)|(r' & ->)];
      cbn [on_fetch]; [|reflexivity].
    unfold resume. cbn [world tasks].
    destruct r as [e|r]; [rewrite plain_run_after_fetch_rejected; reflexivity|].
    destruct (ok r) eqn:Hok.
    + rewrite (plain_run_after_fetch_ok c w' r Hok). reflexivity.
    + rewrite (plain_run_after_fetch_not_ok c w' r Hok). reflexivity.
  - destruct (nth_error ts' i) as [[t'|]|] eqn:E; try reflexivity.
    destruct (alike_nth_r i Ht E) as [(url & init & ->)|(r & ->)];
      cbn [on_json]; [reflexivity|].
    unfold resume. cbn [world tasks].
    destruct (json r) as [e|data] eqn:Hjson;
      [rewrite plain_run_after_json_rejected; reflexivity|].
    destruct (get data f_message) as [e|m] eqn:Hmsg.
    + rewrite (plain_run_after_json_throws c w' data Hmsg). reflexivity.
    + destruct (get_inr data f_message f_reply Hmsg) as [rp Hrp].
      rewrite (plain_run_after_json_data c w' data Hmsg Hrp). reflexivity.
Qed.

Lemma in_step_steps trace :
  forallb (fun ce => Plain.has (snd ce)) trace = true ->
  forall sys sys',
    in_step sys sys' ->
    in_step (steps trace sys) (Plain.steps trace sys') /\
    related (state (world (Plain.steps trace sys'))) =
    related (state (world sys')).
Proof.
  induction trace as [|[c ev] trace IH]; intros Hall sys sys' Hs; simpl; auto.
  simpl in Hall. apply andb_prop in Hall. destruct Hall as [Hev Hall].
  destruct (IH Hall (step c ev sys) (Plain.step c ev sys')) as [H1 H2].
  - apply in_step_step; assumption.
  - split; [exact H1|]. rewrite H2.
    exact (@plain_keeps_related c ev (tasks sys) sys' (proj2 Hs)).
Qed.

(** X13: the earlier page (without suggestions) and the later one, taken
    through the same events of the earlier page from the same start, show
    the same input, history, pending flag and error, hold the same storage
    and have made the same requests and body reads: the later page differs
    in [related] only, which the earlier one never writes. *)
Theorem pages_agree trace w :
  forallb (fun ce => Plain.has (snd ce)) trace = true ->
  let later := steps trace (idle w) in
  let earlier := Plain.steps trace (idle w) in
  inputMessage (state (world later)) = inputMessage (state (world earlier)) /\
  messages (state (world later)) = messages (state (world earlier)) /\
  isLoading (state (world later)) = isLoading (state (world earlier)) /\
  error (state (world later)) = error (state (world earlier)) /\
  localStorage (world later) = localStorage (world earlier) /\
  log (world later) = log (world earlier) /\
  related (state (world earlier)) = related (state w).
Proof.
  intros Hall. cbv zeta.
  destruct (@in_step_steps trace Hall (idle w) (idle w))
    as [[(Hi & Hm & Hl & He & Hs & Hlog) _] Hrel].
  - split; [repeat split | constructor].
  - repeat split; assumption.
Qed.

Lemma pages_agree_witness :
  let later := steps plain_session (idle logged_in) in
  let earlier := Plain.steps plain_session (idle logged_in) in
  map text (messages (state (world earlier))) =
    [ Str (lit "You get 20 days."); Str (lit "more") ] /\
  messages (state (world later)) = messages (state (world earlier)) /\
  log (world later) = log (world earlier).
Proof.
  cbv zeta. split; [reflexivity|].
  destruct (pages_agree plain_session logged_in eq_refl)
    as (_ & Hm & _ & _ & _ & Hlog & _).
  split; [exact Hm | exact Hlog].
Defined.

(** *** Replies follow their questions *)

Lemma answered_nil : answered [].
Proof. intros [|i] m H; discriminate. Qed.

Lemma answered_snoc_user l q :
  answered l -> is_user q = true -> answered (l ++ [q]).
Proof.
  intros Hl Hq i m Hi Hm.
  destruct (Nat.lt_ge_cases i (List.length l)) as [Hlt|Hge].
  - rewrite nth_error_app1 in Hi by exact Hlt.
    destruct (Hl i m Hi Hm) as (j & q' & -> & Hj & Hq').
    exists j, q'. repeat split; auto.
    rewrite nth_error_app1 by lia. exact Hj.
  - rewrite nth_error_app2 in Hi by exact Hge.
    destruct (i - List.length l) as [|n]; simpl in Hi.
    + injection Hi as <-. unfold is_user in Hq. rewrite Hm in Hq. discriminate.
    + destruct n; discriminate.
Qed.

Lemma answered_snoc_bot l q b :
  answered (l ++ [q]) -> is_user q = true -> answered ((l ++ [q]) ++ [b]).
Proof.
  intros Hl Hq i m Hi Hm.
  destruct (Nat.lt_ge_cases i (List.length (l ++ [q]))) as [Hlt|Hge].
  - rewrite nth_error_app1 in Hi by exact Hlt.
    destruct (Hl i m Hi Hm) as (j & q' & -> & Hj & Hq').
    exists j, q'. repeat split; auto.
    rewrite nth_error_app1 by lia. exact Hj.
  - rewrite nth_error_app2 in Hi by exact Hge.
    destruct (i - List.length (l ++ [q])) as [|n] eqn:E; simpl in Hi;
      [|destruct n; discriminate].
    rewrite length_app in *. simpl in *.
    exists (List.length l), q. repeat split; [lia| |exact Hq].
    rewrite nth_error_app1 by (rewrite length_app; simpl; lia).
    rewrite nth_error_app2 by lia. rewrite Nat.sub_diag. reflexivity.
Qed.

(** X14: on a page worked through its controls only, starting with an
    empty history and nothing pending, and not cleared in between, every
    bot message in the history stands right after a user message: a reply
    is appended while its question is still the last entry. *)
Theorem replies_follow_questions trace w :
  messages (state w) = [] ->
  isLoading (state w) = false ->
  forallb (fun ce => via_the_page_uncleared (snd ce)) trace = true ->
  answered (messages (state (world (steps trace (idle w))))).
Proof.
  intros Hm Hl Hall.
  apply (steps_invariant via_the_page_uncleared
           (fun sys =>
              in_flight_count (tasks sys) =
                (if isLoading (state (world sys)) then 1 else 0) /\
              (isLoading (state (world sys)) = true ->
               exists l q, messages (state (world sys)) = l ++ [q] /\
                           is_user q = true) /\
              answered (messages (state (world sys)))))
    with (trace := trace) (sys := idle w).
  - intros c ev sys sys' Hev (Hcount & Hlast & Hans) Hturn.
    apply andb_prop in Hev. destruct Hev as [Hvia Hnc].
    destruct Hturn as [w' Hq | v | Hclear | | w0 token messageText Hq Htoken Hstart
                      | i t description Ht | i url init r Ht _ | i t txt rel Ht];
      cbn [world tasks state typed cleared signed_out failed emit replied
           in_flight started isLoading messages].
    + destruct Hq as (Hs & _). rewrite Hs. auto.
    + auto.
    + subst ev. discriminate.
    + auto.
    + destruct Hstart as [Hd|Hidle].
      { unfold via_the_page in Hvia. rewrite Hd in Hvia. discriminate. }
      rewrite Hidle in Hcount. rewrite in_flight_count_app, Hcount.
      destruct Hq as (Hs & _). rewrite Hs.
      split; [reflexivity|]. split.
      * intros _. eexists _, _. split; reflexivity.
      * apply answered_snoc_user; [exact Hans | reflexivity].
    + pose proof (@in_flight_count_done i t _ Ht) as E.
      destruct (isLoading (state (world sys))); [|lia].
      split; [lia|]. split; [discriminate | exact Hans].
    + rewrite (@in_flight_count_goes_on i _ _ _ Ht). auto.
    + pose proof (@in_flight_count_done i t _ Ht) as E.
      destruct (isLoading (state (world sys))); [|lia].
      split; [lia|]. split; [discriminate|].
      destruct (Hlast eq_refl) as (l & q & Hmsgs & Hq).
      rewrite Hmsgs in *. apply answered_snoc_bot; assumption.
  - constructor.
  - exact Hall.
  - cbn [idle world tasks]. rewrite Hm, Hl.
    split; [reflexivity|]. split; [discriminate | apply answered_nil].
Qed.

Lemma replies_follow_questions_witness :
  map sender (messages (state (world (steps (firstn 10 session) (idle logged_in))))) =
    [ user; bot; user ] /\
  answered (messages (state (world (steps (firstn 10 session) (idle logged_in))))).
Proof.
  split; [reflexivity|].
  exact (replies_follow_questions (firstn 10 session) logged_in
           eq_refl eq_refl eq_refl).
Defined.
